(** * Inventory reorder dashboard

    A shallow embedding of the prediction pipeline of the dashboard component
    ([createAugmentedProducts], [buildAndTrainModel], [handleTrainModel],
    [handlePredict]) together with the properties its design document states
    about it.

    The repository holds two copies of the component: [src/App.js] and
    [InventoryDashboard.jsx].  They share the pipeline; they differ in
    the hard-coded training set and in how the user is notified (a message
    banner against [window.alert]).  [Revision] selects between them wherever
    the text of the two files differs.

    Conventions.
    - A finite JavaScript number is a rational ([Q]); arithmetic on it is
      exact.  Every double is a rational, so a statement quantified over all
      rationals in [0,1) covers every value [Math.random()] can return.
    - A value the numeric engine hands back may be [NaN]; see [JS.number].
    - A JavaScript string is the list of its UTF-16 code units.
    - Code that may throw lives in the monad [JS.Eff]: a state transformer
      over [World] whose result is a completion, normal or abrupt. *)

From Stdlib Require Import ZArith QArith Qround Lia Lqa.
From stdpp Require Import gmap list strings pretty.

Local Open Scope Z_scope.

(** ** JavaScript primitives *)

Module JS.

(** [Math.round]: the nearest integer, halves going up. *)
Definition Math_round (x : Q) : Z := Qfloor (x + (1 # 2)).

(** What a typed array cell read back from the engine can hold. *)
Inductive number :=
| Num (q : Q)
| NaN.

(** [x >= c] for a value that may be [undefined] ([None]) or [NaN]:
    both compare false with everything. *)
Definition ge (x : option number) (c : Q) : bool :=
  match x with
  | Some (Num q) => Qle_bool c q
  | Some NaN => false
  | None => false
  end.

Definition code_unit := N.
Definition jsstring := list code_unit.

(** A string literal of the source, as code units. *)
Fixpoint lit (s : string) : jsstring :=
  match s with
  | EmptyString => []
  | String a s' => Ascii.N_of_ascii a :: lit s'
  end.

(** [s.substring(from, to)]: indices are clamped to the length and put in
    order. *)
Definition substring (from to : nat) (s : jsstring) : jsstring :=
  let lo := Nat.min from to in
  let hi := Nat.max from to in
  take (hi - lo) (drop lo s).

(** How a statement ends. *)
Inductive Completion (A : Type) :=
| Normal (a : A)
| Throw (e : string).
Arguments Normal {A} a.
Arguments Throw {A} e.

(** Code with effects on a state [S] that may throw. *)
Definition Eff (S A : Type) : Type := S → Completion A * S.

Definition ret {S A} (a : A) : Eff S A := λ s, (Normal a, s).

Definition bind {S A B} (m : Eff S A) (k : A → Eff S B) : Eff S B :=
  λ s, match m s with
       | (Normal a, s') => k a s'
       | (Throw e, s') => (Throw e, s')
       end.

Definition throw {S A} (e : string) : Eff S A := λ s, (Throw e, s).

(** [try { body } catch (err) { handler }] *)
Definition try_catch {S A} (body : Eff S A) (handler : string → Eff S A)
  : Eff S A :=
  λ s, match body s with
       | (Normal a, s') => (Normal a, s')
       | (Throw e, s') => handler e s'
       end.

(** [try { body } finally { cleanup }] *)
Definition try_finally {S A} (body : Eff S A) (cleanup : Eff S unit)
  : Eff S A :=
  λ s, match body s with
       | (r, s') =>
           match cleanup s' with
           | (Normal _, s'') => (r, s'')
           | (Throw e, s'') => (Throw e, s'')
           end
       end.

(** Run a computation on a component of the state. *)
Definition zoom {S T A} (get : S → T) (put : T → S → S) (m : Eff T A)
  : Eff S A :=
  λ s, match m (get s) with (r, t') => (r, put t' s) end.

Definition modify {S} (f : S → S) : Eff S unit := λ s, (Normal tt, f s).
Definition gets {S A} (f : S → A) : Eff S A := λ s, (Normal (f s), s).

(** [array.map(callback)]: the callback runs on the elements from left to
    right; the first abrupt completion ends the loop. *)
Fixpoint Array_map {S A B} (callback : A → Eff S B) (array : list A)
  : Eff S (list B) :=
  match array with
  | [] => ret []
  | a :: rest =>
      bind (callback a) (λ b,
      bind (Array_map callback rest) (λ bs,
      ret (b :: bs)))
  end.

End JS.

Declare Scope eff_scope.
Delimit Scope eff_scope with eff.
Notation "x <- c ;; k" := (JS.bind c (λ x, k))
  (at level 100, c at next level, right associativity) : eff_scope.
Notation "c ;; k" := (JS.bind c (λ _, k))
  (at level 100, right associativity) : eff_scope.

Import JS.

(** ** Data model *)

Module RawProduct.
(** One record of the catalog reply: [{id, title, price}]. *)
Record t := mk { id : Z; title : jsstring; price : Q }.
End RawProduct.

(** The three strings [reorderPrediction] takes. *)
Inductive Prediction :=
| Pending      (* "Pending" *)
| REORDER      (* "REORDER" *)
| No_Reorder.  (* "No Reorder" *)

Global Instance Prediction_eq_dec : EqDecision Prediction.
Proof. solve_decision. Defined.

Module Item.
(** The object literal [createAugmentedProducts] returns per product. *)
Record t := mk {
  id : Z;
  name : jsstring;
  currentInventory : Z;
  averageSalesPerWeek : Z;
  daysToReplenish : Z;
  reorderPrediction : Prediction;
  mlFeatures : list Z;
}.

(** [{ ...it, reorderPrediction: suggestion }] *)
Definition with_reorderPrediction (it : t) (suggestion : Prediction) : t :=
  {| id := id it;
     name := name it;
     currentInventory := currentInventory it;
     averageSalesPerWeek := averageSalesPerWeek it;
     daysToReplenish := daysToReplenish it;
     reorderPrediction := suggestion;
     mlFeatures := mlFeatures it |}.
End Item.

(** The two copies of the component in the repository. *)
Inductive Revision :=
| AppJs
| InventoryDashboardJsx.

(** ** The numeric engine ([tf]) *)

Module Tf.

Definition TensorData := list (list number).

(** The options object given to [model.fit]. *)
Record FitArgs := { epochs : nat; shuffle : bool }.

(** Calls into the library that the pipeline makes, as the library sees
    them: the data of the tensors at the time of the call. *)
Inductive LibCall :=
| CallFit (xs ys : TensorData) (args : FitArgs)
| CallPredict (x : TensorData).

(** The engine's bookkeeping for the tensors the component itself makes
    (with [tf.tensor2d], or as the result of [model.predict]): those of them
    that are alive, by id, and the next id to hand out.  The variables a
    model keeps for its layers and its optimizer belong to the model and are
    not entered here. *)
Record Engine := {
  nextTensorId : nat;
  registry : gmap nat TensorData;
  calls : list LibCall;
}.

Definition fresh_engine : Engine :=
  {| nextTensorId := 0; registry := ∅; calls := [] |}.

(** How many of the tensors the component made are alive.  (This is not
    [tf.memory().numTensors], which also counts the variables of the
    models.) *)
Definition numTensors (e : Engine) : nat := size (registry e).

(** Ids not yet handed out are not alive. *)
Definition engine_wf (e : Engine) : Prop :=
  ∀ i, (nextTensorId e ≤ i)%nat → registry e !! i = None.

Inductive Activation := relu | sigmoid.
Record DenseArgs := {
  inputShape : option (list nat);
  units : nat;
  activation : Activation;
}.
Record CompileArgs := {
  optimizer : string;
  loss : string;
  metrics : list string;
}.

(** A fitted network, seen from outside: the forward pass on a batch,
    which may fail. *)
Definition Network := TensorData → Completion TensorData.

(** A [tf.Sequential] model object. *)
Record LayersModel := {
  layers : list DenseArgs;
  compiled : option CompileArgs;
  forward : Network;
}.

Local Open Scope eff_scope.

Definition set_registry (r : gmap nat TensorData) (e : Engine) : Engine :=
  {| nextTensorId := nextTensorId e; registry := r; calls := calls e |}.

Definition record_call (c : LibCall) : Eff Engine unit :=
  modify (λ e, {| nextTensorId := nextTensorId e;
                  registry := registry e;
                  calls := calls e ++ [c] |}).

(** [tf.tensor2d(values)]: a new live tensor. *)
Definition tensor2d (values : TensorData) : Eff Engine nat :=
  λ e, let t := nextTensorId e in
       (Normal t, {| nextTensorId := S t;
                     registry := <[t := values]> (registry e);
                     calls := calls e |}).

(** [t.dispose()]: the tensor is no longer alive; disposing twice is
    harmless. *)
Definition dispose (t : nat) : Eff Engine unit :=
  modify (λ e, set_registry (delete t (registry e)) e).

(** Reading a tensor that was disposed throws. *)
Definition read (t : nat) : Eff Engine TensorData :=
  λ e, match registry e !! t with
       | Some values => (Normal values, e)
       | None => (Throw "Tensor is disposed.", e)
       end.

(** [t.dataSync()]: the values, flattened. *)
Definition dataSync (t : nat) : Eff Engine (list number) :=
  values <- read t ;; ret (concat values).

(** [model.predict(x)]: the forward pass; its result is a new tensor. *)
Definition predict (model : LayersModel) (x : nat) : Eff Engine nat :=
  input <- read x ;;
  record_call (CallPredict input) ;;
  match forward model input with
  | Normal output => tensor2d output
  | Throw e => throw e
  end.

(** [await model.fit(xs, ys, args)].  What the optimiser arrives at is not
    decided by the component: [outcome] is the network the fit ends with, or
    the error it ends with. *)
Definition fit (outcome : Completion Network) (xs ys : nat) (args : FitArgs)
  : Eff Engine Network :=
  x <- read xs ;;
  y <- read ys ;;
  record_call (CallFit x y args) ;;
  match outcome with
  | Normal net => ret net
  | Throw e => throw e
  end.

End Tf.

(** ** Component state and the world around it *)

Inductive MessageType := success | error | warning.

Record Message := { text : string; type : MessageType }.

(** The [useState] cells of [InventoryDashboard]. *)
Record Dashboard := {
  items : list Item.t;
  loading : bool;
  isModelReady : bool;
  tfModel : option Tf.LayersModel;
  totalReorder : nat;
  message : option Message;  (* [App.js] only *)
}.

Record World := {
  ui : Dashboard;
  tf : Tf.Engine;
  random : nat → Q;       (* what [Math.random()] will return, call by call *)
  alerts : list string;   (* [alert(...)], oldest first *)
  console : list string;  (* [console.error(...)], first argument *)
}.

Definition initial_dashboard : Dashboard :=
  {| items := []; loading := true; isModelReady := false; tfModel := None;
     totalReorder := 0; message := None |}.

Definition initial_world (draws : nat → Q) : World :=
  {| ui := initial_dashboard; tf := Tf.fresh_engine; random := draws;
     alerts := []; console := [] |}.

Definition set_ui (d : Dashboard) (w : World) : World :=
  {| ui := d; tf := tf w; random := random w; alerts := alerts w;
     console := console w |}.

Definition set_tf (e : Tf.Engine) (w : World) : World :=
  {| ui := ui w; tf := e; random := random w; alerts := alerts w;
     console := console w |}.

Section Effects.
Local Open Scope eff_scope.

(** Engine calls, made from the component. *)
Definition tf_ {A} (m : Eff Tf.Engine A) : Eff World A := zoom tf set_tf m.

(** [Math.random()] *)
Definition Math_random : Eff World Q :=
  λ w, (Normal (random w 0%nat),
        {| ui := ui w; tf := tf w; random := λ n, random w (S n);
           alerts := alerts w; console := console w |}).

Definition alert (msg : string) : Eff World unit :=
  modify (λ w, {| ui := ui w; tf := tf w; random := random w;
                  alerts := alerts w ++ [msg]; console := console w |}).

Definition console_error (msg : string) : Eff World unit :=
  modify (λ w, {| ui := ui w; tf := tf w; random := random w;
                  alerts := alerts w; console := console w ++ [msg] |}).

Definition setItems (v : list Item.t) : Eff World unit :=
  modify (λ w, set_ui {| items := v; loading := loading (ui w);
                         isModelReady := isModelReady (ui w);
                         tfModel := tfModel (ui w);
                         totalReorder := totalReorder (ui w);
                         message := message (ui w) |} w).

Definition setLoading (v : bool) : Eff World unit :=
  modify (λ w, set_ui {| items := items (ui w); loading := v;
                         isModelReady := isModelReady (ui w);
                         tfModel := tfModel (ui w);
                         totalReorder := totalReorder (ui w);
                         message := message (ui w) |} w).

Definition setModelReady (v : bool) : Eff World unit :=
  modify (λ w, set_ui {| items := items (ui w); loading := loading (ui w);
                         isModelReady := v;
                         tfModel := tfModel (ui w);
                         totalReorder := totalReorder (ui w);
                         message := message (ui w) |} w).

Definition setTfModel (v : option Tf.LayersModel) : Eff World unit :=
  modify (λ w, set_ui {| items := items (ui w); loading := loading (ui w);
                         isModelReady := isModelReady (ui w);
                         tfModel := v;
                         totalReorder := totalReorder (ui w);
                         message := message (ui w) |} w).

Definition setTotalReorder (v : nat) : Eff World unit :=
  modify (λ w, set_ui {| items := items (ui w); loading := loading (ui w);
                         isModelReady := isModelReady (ui w);
                         tfModel := tfModel (ui w);
                         totalReorder := v;
                         message := message (ui w) |} w).

Definition setMessage (v : option Message) : Eff World unit :=
  modify (λ w, set_ui {| items := items (ui w); loading := loading (ui w);
                         isModelReady := isModelReady (ui w);
                         tfModel := tfModel (ui w);
                         totalReorder := totalReorder (ui w);
                         message := v |} w).

End Effects.

(** ** The component *)

Section Component.
Local Open Scope eff_scope.

(** Which of the two source files is being read. *)
Variable rev : Revision.

(** [showMessage(text, type)] of [App.js].  (The banner is cleared four
    seconds later; see [MessageTimeout] below.) *)
Definition showMessage (text : string) (type : MessageType) : Eff World unit :=
  setMessage (Some {| text := text; type := type |}).

(** The user-visible notification at the places where both files have one:
    [showMessage(text, type)] in [App.js], [alert(text)] in the other file. *)
Definition notify (text : string) (type : MessageType) : Eff World unit :=
  match rev with
  | AppJs => showMessage text type
  | InventoryDashboardJsx => alert text
  end.

(** A notification only [App.js] has. *)
Definition showMessage_AppJs (text : string) (type : MessageType)
  : Eff World unit :=
  match rev with
  | AppJs => showMessage text type
  | InventoryDashboardJsx => ret tt
  end.

(** *** Helper: data augmentation *)

(** The callback of [rawProducts.map]. *)
Definition augment (p : RawProduct.t) : Eff World Item.t :=
  let baseInv :=
    Math_round (RawProduct.price p * 2.5 + inject_Z (RawProduct.id p) * 5) in
  r <- Math_random ;;
  let avgSales := Math_round (inject_Z baseInv * (0.1 + r * 0.2)) in
  r' <- Math_random ;;
  let leadTime := Math_round (1 + r' * 5) in
  ret {| Item.id := RawProduct.id p;
         Item.name :=
           if (40 <? length (RawProduct.title p))%nat
           then substring 0 40 (RawProduct.title p) ++ lit "..."
           else RawProduct.title p;
         Item.currentInventory := baseInv;
         Item.averageSalesPerWeek := avgSales;
         Item.daysToReplenish := leadTime;
         Item.reorderPrediction := Pending;
         Item.mlFeatures := [baseInv; avgSales; leadTime] |}.

(** [createAugmentedProducts(rawProducts)], called on an array as both
    callers do (the default [[]] of the parameter is for a missing
    argument). *)
Definition createAugmentedProducts (rawProducts : list RawProduct.t)
  : Eff World (list Item.t) :=
  Array_map augment rawProducts.

(** *** Model training helper *)

Definition row (values : list Z) : list number :=
  map (λ z, Num (inject_Z z)) values.

Definition trainingFeatures_data : Tf.TensorData :=
  match rev with
  | AppJs =>
      [ row [20; 50; 3];
        row [5; 30; 5];
        row [15; 40; 4];
        row [8; 60; 2];
        row [100; 10; 1];
        row [2; 50; 6] ]
  | InventoryDashboardJsx =>
      [ row [20; 50; 3];
        row [5; 30; 5];
        row [15; 40; 4];
        row [8; 60; 2] ]
  end.

Definition trainingLabels_data : Tf.TensorData :=
  match rev with
  | AppJs => [ row [0]; row [1]; row [0]; row [1]; row [0]; row [1] ]
  | InventoryDashboardJsx => [ row [0]; row [1]; row [0]; row [1] ]
  end.

(** [buildAndTrainModel()], called without an epoch callback as
    [handleTrainModel] does.  [outcome] is how [model.fit] ends. *)
Definition buildAndTrainModel (outcome : Completion Tf.Network)
  : Eff World Tf.LayersModel :=
  trainingFeatures <- tf_ (Tf.tensor2d trainingFeatures_data) ;;
  trainingLabels <- tf_ (Tf.tensor2d trainingLabels_data) ;;
  let model_layers :=
    [ {| Tf.inputShape := Some [3%nat]; Tf.units := 8;
         Tf.activation := Tf.relu |};
      {| Tf.inputShape := None; Tf.units := 1;
         Tf.activation := Tf.sigmoid |} ] in
  let model_compiled :=
    {| Tf.optimizer := "adam"; Tf.loss := "binaryCrossentropy";
       Tf.metrics := ["accuracy"] |} in
  net <- tf_ (Tf.fit outcome trainingFeatures trainingLabels
                {| Tf.epochs := 200; Tf.shuffle := true |}) ;;
  tf_ (Tf.dispose trainingFeatures) ;;
  tf_ (Tf.dispose trainingLabels) ;;
  ret {| Tf.layers := model_layers;
         Tf.compiled := Some model_compiled;
         Tf.forward := net |}.

(** *** Handlers *)

(** The effect run on mount.  [reply] is what the catalog fetch resolved
    to, batches already merged, or the error it was rejected with. *)
Definition loadProducts (reply : Completion (list RawProduct.t))
  : Eff World unit :=
  try_finally
    (try_catch
       (rawProducts <- match reply with
                       | Normal json => ret json
                       | Throw e => throw e
                       end ;;
        augmented <- createAugmentedProducts rawProducts ;;
        setItems augmented)
       (λ err,
         console_error "Failed loading products:" ;;
         showMessage_AppJs "Failed to load products from API." error))
    (setLoading false).

Definition handleTrainModel (outcome : Completion Tf.Network)
  : Eff World unit :=
  setModelReady false ;;
  showMessage_AppJs "Training model... this will take a few seconds." warning ;;
  try_catch
    (model <- buildAndTrainModel outcome ;;
     setTfModel (Some model) ;;
     setModelReady true ;;
     notify "Model trained successfully! Ready to predict." success)
    (λ err,
      console_error "Training error:" ;;
      notify "Error training model (check console)." error).

(** The callback of [items.map] in [handlePredict].  [reorderCount] is the
    counter the callback closes over: it comes in and goes out. *)
Definition predictItem (tfModel : Tf.LayersModel)
  (it : Item.t) (reorderCount : nat) : Eff World (Item.t * nat) :=
  features <- tf_ (Tf.tensor2d [row (Item.mlFeatures it)]) ;;
  res <- tf_ (Tf.predict tfModel features) ;;
  data <- tf_ (Tf.dataSync res) ;;
  let prob := head data in
  tf_ (Tf.dispose features) ;;
  tf_ (Tf.dispose res) ;;
  let suggestion := if ge prob 0.5 then REORDER else No_Reorder in
  let reorderCount :=
    if decide (suggestion = REORDER) then S reorderCount else reorderCount in
  ret (Item.with_reorderPrediction it suggestion, reorderCount).

Fixpoint predictItems (tfModel : Tf.LayersModel)
  (items : list Item.t) (reorderCount : nat)
  : Eff World (list Item.t * nat) :=
  match items with
  | [] => ret ([], reorderCount)
  | it :: rest =>
      first <- predictItem tfModel it reorderCount ;;
      others <- predictItems tfModel rest (snd first) ;;
      ret (fst first :: fst others, snd others)
  end.

Definition handlePredict : Eff World unit :=
  tfModel <- gets (λ w, tfModel (ui w)) ;;
  match tfModel with
  | None => notify "Please train the model first!" warning
  | Some tfModel =>
      items <- gets (λ w, items (ui w)) ;;
      mapped <- predictItems tfModel items 0%nat ;;
      let updated := fst mapped in
      let reorderCount := snd mapped in
      setItems updated ;;
      setTotalReorder reorderCount ;;
      showMessage_AppJs
        ("Prediction complete. " +:+ pretty reorderCount
           +:+ " items flagged for reorder.") success
  end.

End Component.

(** ** Vocabulary of the properties *)

(** [m] run in [s] completes normally, with a result and a final state that
    satisfy [post]. *)
Definition returns {S A} (m : Eff S A) (s : S) (post : A → S → Prop) : Prop :=
  ∃ a s', m s = (Normal a, s') ∧ post a s'.

(** The feature vector is the three columns of the record, in the order the
    classifier was trained on. *)
Definition features_ok (it : Item.t) : Prop :=
  Item.mlFeatures it =
    [Item.currentInventory it; Item.averageSalesPerWeek it;
     Item.daysToReplenish it].

(** The classifier is trained from the moment a model is stored: this is
    what [handlePredict] tests. *)
Inductive ClassifierState := Untrained | Trained.

Definition classifierState (w : World) : ClassifierState :=
  match tfModel (ui w) with
  | Some _ => Trained
  | None => Untrained
  end.

(** The forward pass on the features of [it] does not fail. *)
Definition forward_succeeds (model : Tf.LayersModel) (it : Item.t) : bool :=
  match Tf.forward model [row (Item.mlFeatures it)] with
  | Normal _ => true
  | Throw _ => false
  end.

(** The scalar the classifier puts out for [it]: the first cell of the
    output of the forward pass, if there is one. *)
Definition probability (model : Tf.LayersModel) (it : Item.t)
  : option number :=
  match Tf.forward model [row (Item.mlFeatures it)] with
  | Normal output => head (concat output)
  | Throw _ => None
  end.

(** "The probability is at least one half". *)
Definition at_least_half (prob : option number) : Prop :=
  ∃ q, prob = Some (Num q) ∧ (1 # 2 <= q)%Q.

(** Every draw of the generator is in [0,1). *)
Definition uniform_draws (w : World) : Prop :=
  ∀ n, (0 <= random w n)%Q ∧ (random w n < 1)%Q.

(** [averageSalesPerWeek] is between the rounded tenth and the rounded
    three tenths of [currentInventory]. *)
Definition sales_in_interval (it : Item.t) : Prop :=
  Math_round (inject_Z (Item.currentInventory it) * 0.1)
    ≤ Item.averageSalesPerWeek it
    ≤ Math_round (inject_Z (Item.currentInventory it) * 0.3).

(** The same, with the two ends exchanged. *)
Definition sales_in_mirrored_interval (it : Item.t) : Prop :=
  Math_round (inject_Z (Item.currentInventory it) * 0.3)
    ≤ Item.averageSalesPerWeek it
    ≤ Math_round (inject_Z (Item.currentInventory it) * 0.1).

(** The display name of a product: the title cut after 40 code units and
    followed by three full stops when it is longer than that, the title
    otherwise. *)
Definition displayName_of (p : RawProduct.t) (it : Item.t) : Prop :=
  ((40 < length (RawProduct.title p))%nat →
     Item.name it = take 40 (RawProduct.title p) ++ [46; 46; 46]%N ∧
     length (Item.name it) = 43%nat) ∧
  ((length (RawProduct.title p) ≤ 40)%nat →
     Item.name it = RawProduct.title p).

(** The label the threshold gives to the output for [it]. *)
Definition suggestion_for (model : Tf.LayersModel) (it : Item.t)
  : Prediction :=
  if ge (probability model it) 0.5 then REORDER else No_Reorder.

(** The number of records flagged for reorder. *)
Definition flagged (items : list Item.t) : nat :=
  length (filter (λ it, Item.reorderPrediction it = REORDER) items).

(** The record [handlePredict] puts in the place of [it]. *)
Definition predicted (model : Tf.LayersModel) (it : Item.t) : Item.t :=
  Item.with_reorderPrediction it (suggestion_for model it).

(** The forward-pass call made for [it]. *)
Definition predict_call (it : Item.t) : Tf.LibCall :=
  Tf.CallPredict [row (Item.mlFeatures it)].

(** Nothing but the engine differs between the two worlds. *)
Definition same_outside_engine (w w' : World) : Prop :=
  ui w' = ui w ∧ random w' = random w ∧ alerts w' = alerts w ∧
  console w' = console w.

(** The user was told that the model has to be trained first. *)
Definition untrained_warning (rev : Revision) (w w' : World) : Prop :=
  match rev with
  | AppJs =>
      message (ui w') =
        Some {| text := "Please train the model first!"; type := warning |} ∧
      alerts w' = alerts w
  | InventoryDashboardJsx =>
      alerts w' = alerts w ++ ["Please train the model first!"] ∧
      message (ui w') = message (ui w)
  end.

(** The failure of the training was logged and the user was told. *)
Definition training_error_surfaced (rev : Revision) (w w' : World) : Prop :=
  console w' = console w ++ ["Training error:"] ∧
  match rev with
  | AppJs =>
      message (ui w') =
        Some {| text := "Error training model (check console).";
                type := error |}
  | InventoryDashboardJsx =>
      alerts w' = alerts w ++ ["Error training model (check console)."]
  end.

(** The component says "trained" exactly when it holds a model. *)
Definition ready_iff_model (w : World) : Prop :=
  isModelReady (ui w) = true ↔ is_Some (tfModel (ui w)).

(** Every field but [reorderPrediction] agrees. *)
Definition same_but_prediction (it it' : Item.t) : Prop :=
  Item.id it' = Item.id it ∧
  Item.name it' = Item.name it ∧
  Item.currentInventory it' = Item.currentInventory it ∧
  Item.averageSalesPerWeek it' = Item.averageSalesPerWeek it ∧
  Item.daysToReplenish it' = Item.daysToReplenish it ∧
  Item.mlFeatures it' = Item.mlFeatures it.

(** A call of the forward pass was made on one row holding the three columns
    of some record. *)
Definition predict_call_ok (c : Tf.LibCall) : Prop :=
  match c with
  | Tf.CallPredict x =>
      ∃ inventory sales leadTime : Z, x = [row [inventory; sales; leadTime]]
  | Tf.CallFit _ _ _ => True
  end.

(** ** The component as a transition system

    What can happen to a mounted component: the mount effect, a click on one
    of the two buttons of [Toolbar], the message timer.  A handler runs to
    its end before the next event is taken; a click that arrives while a fit
    is under way is the matter of [handleTrainModel_begin] and
    [handleTrainModel_resume] further down. *)

Inductive Event :=
| Mount (reply : Completion (list RawProduct.t))
| ClickTrain (outcome : Completion Tf.Network)
| ClickPredict
| MessageTimeout.

(** The loader is shown instead of the toolbar while [loading]; the train
    button has [disabled={isTrained}], the predict button
    [disabled={!isTrained}], with [isTrained={isModelReady}]. *)
Definition enabled (e : Event) (w : World) : bool :=
  match e with
  | Mount _ => loading (ui w)
  | ClickTrain _ => negb (loading (ui w)) && negb (isModelReady (ui w))
  | ClickPredict => negb (loading (ui w)) && isModelReady (ui w)
  | MessageTimeout => true
  end.

Definition handle (rev : Revision) (e : Event) : Eff World unit :=
  match e with
  | Mount reply => loadProducts rev reply
  | ClickTrain outcome => handleTrainModel rev outcome
  | ClickPredict => handlePredict rev
  | MessageTimeout => setMessage None
  end.

Inductive reachable (rev : Revision) (draws : nat → Q) : World → Prop :=
| reachable_init : reachable rev draws (initial_world draws)
| reachable_step w e :
    reachable rev draws w →
    enabled e w = true →
    reachable rev draws (snd (handle rev e w)).

(** What holds of every world the component can be in. *)
Definition world_invariant (w : World) : Prop :=
  Forall features_ok (items (ui w)) ∧
  ready_iff_model w ∧
  Tf.engine_wf (tf w) ∧
  Forall predict_call_ok (Tf.calls (tf w)).

(** The six labelled examples of [App.js]: features and label. *)
Definition six_examples : list (list Z * Z) :=
  [ ([20; 50; 3], 0);
    ([5; 30; 5], 1);
    ([15; 40; 4], 0);
    ([8; 60; 2], 1);
    ([100; 10; 1], 0);
    ([2; 50; 6], 1) ].

(** What [model.fit] does with its options, as the library documents them:
    it goes [epochs] times over all the examples (the default batch size,
    32, holds them all), in the order given or, with [shuffle], in an order
    drawn anew before each epoch.  [drawn e] is the reordering drawn before
    epoch [e]; the result lists, epoch by epoch, the examples in the order
    they are visited. *)
Definition fit_schedule {A} (args : Tf.FitArgs)
  (drawn : nat → list A → list A) (examples : list A) : list (list A) :=
  map (λ e, if Tf.shuffle args then drawn e examples else examples)
    (seq 0 (Tf.epochs args)).

(** The size of the training set hard-coded in each file. *)
Definition training_examples (rev : Revision) : nat :=
  match rev with
  | AppJs => 6
  | InventoryDashboardJsx => 4
  end.

(** ** Sample data

    Two products of the catalog, a generator that always draws one half, a
    network that flags small inventories, a network whose backend is gone,
    and the worlds reached by mounting the component on the two products
    and training with either network. *)

Definition sample_products : list RawProduct.t :=
  [ RawProduct.mk 1
      (lit "Fjallraven - Foldsack No. 1 Backpack, Fits 15 Laptops") 109.95;
    RawProduct.mk 2 (lit "Mens Casual Premium Slim Fit T-Shirts") 22.3 ].

Definition sample_draws : nat → Q := λ _, 1 # 2.

Definition sample_network : Tf.Network :=
  λ x, match x with
       | [[Num inventory; Num sales; Num leadTime]] =>
           if Qle_bool inventory 100
           then Normal [[Num 0.9]]
           else Normal [[Num 0.1]]
       | _ => Throw "expected a tensor of shape [1,3]"
       end.

Definition failing_network : Tf.Network :=
  λ _, Throw "the backend was lost".

Definition model_of (net : Tf.Network) : Tf.LayersModel :=
  {| Tf.layers :=
       [ {| Tf.inputShape := Some [3%nat]; Tf.units := 8;
            Tf.activation := Tf.relu |};
         {| Tf.inputShape := None; Tf.units := 1;
            Tf.activation := Tf.sigmoid |} ];
     Tf.compiled :=
       Some {| Tf.optimizer := "adam"; Tf.loss := "binaryCrossentropy";
               Tf.metrics := ["accuracy"] |};
     Tf.forward := net |}.

Definition mounted_world (rev : Revision) : World :=
  snd (handle rev (Mount (Normal sample_products))
         (initial_world sample_draws)).

Definition trained_world (rev : Revision) (net : Tf.Network) : World :=
  snd (handle rev (ClickTrain (Normal net)) (mounted_world rev)).

(** ** The synthesizer in closed form *)

(** The record the callback of [createAugmentedProducts] returns for [p]
    when [Math.random()] gives [r] and then [r']. *)
Definition synthesize (p : RawProduct.t) (r r' : Q) : Item.t :=
  let baseInv :=
    Math_round (RawProduct.price p * 2.5 + inject_Z (RawProduct.id p) * 5) in
  let avgSales := Math_round (inject_Z baseInv * (0.1 + r * 0.2)) in
  let leadTime := Math_round (1 + r' * 5) in
  {| Item.id := RawProduct.id p;
     Item.name :=
       if (40 <? length (RawProduct.title p))%nat
       then substring 0 40 (RawProduct.title p) ++ lit "..."
       else RawProduct.title p;
     Item.currentInventory := baseInv;
     Item.averageSalesPerWeek := avgSales;
     Item.daysToReplenish := leadTime;
     Item.reorderPrediction := Pending;
     Item.mlFeatures := [baseInv; avgSales; leadTime] |}.

(** The records for a list of products: each product takes the next two
    draws. *)
Fixpoint synthesize_all (draws : nat → Q) (rawProducts : list RawProduct.t)
  : list Item.t :=
  match rawProducts with
  | [] => []
  | p :: rest =>
      synthesize p (draws 0%nat) (draws 1%nat)
        :: synthesize_all (λ n, draws (S (S n))) rest
  end.

(** ** The mount effect of [App.js], batch by batch

    What [response.json()] can hand back is modelled as far as the code
    tells values apart: a value the filter drops ([null] or a primitive), a
    product object (numeric [id] and [price], string [title]) and an object
    (or array) whose [title] is [undefined] or [null].  Objects of other
    shapes are outside the model. *)

Inductive Entry :=
| Primitive
| Product (p : RawProduct.t)
| Untitled.

(** What is left after [filter(p => p && typeof p === 'object')]. *)
Inductive ObjectEntry :=
| ProductObject (p : RawProduct.t)
| UntitledObject.

Definition keep_object (e : Entry) : option ObjectEntry :=
  match e with
  | Primitive => None
  | Product p => Some (ProductObject p)
  | Untitled => Some UntitledObject
  end.

(** The parsed body of a reply: an array, or some other value. *)
Inductive Body :=
| JsonArray (entries : list Entry)
| JsonValue (entry : Entry).

(** How one [fetch(url).then(...)] ends before its [.catch]. *)
Inductive FetchOutcome :=
| Rejected (reason : string)    (* the request failed *)
| NotOk (status : nat)          (* [!response.ok] *)
| BadJson (reason : string)     (* [response.json()] rejected *)
| Json (body : Body).

(** [allResults.flat()]: arrays are spliced, other values stay. *)
Definition flat (allResults : list Body) : list Entry :=
  concat (map (λ b, match b with
                    | JsonArray entries => entries
                    | JsonValue entry => [entry]
                    end) allResults).

Definition batchSize : nat := 20.
Definition totalBatches : nat := 5.

Definition batch_url (i : nat) : string :=
  "https://fakestoreapi.com/products?limit=" +:+ pretty batchSize
    +:+ "&skip=" +:+ pretty (i * batchSize)%nat.

(** The callback of [rawProducts.map] on an object of the reply.  On an
    object without a title the two draws are taken before
    [p.title.length] throws. *)
Definition augment_object (o : ObjectEntry) : Eff World Item.t :=
  match o with
  | ProductObject p => augment p
  | UntitledObject =>
      bind Math_random (λ _,
      bind Math_random (λ _,
      throw "TypeError: Cannot read properties of undefined (reading 'length')"))
  end.

(** What promise [i] of [fetchPromises] resolves to: the parsed body, or
    the empty array its [.catch] returns. *)
Definition batch_result (fetch : string → FetchOutcome) (i : nat) : Body :=
  match fetch (batch_url i) with
  | Json body => body
  | Rejected _ | NotOk _ | BadJson _ => JsonArray []
  end.

(** What happens when promise [i] settles: on a failure its [.catch] logs
    it. *)
Definition settle_batch (fetch : string → FetchOutcome) (i : nat)
  : Eff World unit :=
  match fetch (batch_url i) with
  | Json _ => ret tt
  | Rejected _ | NotOk _ | BadJson _ =>
      console_error ("Error fetching batch " +:+ pretty i +:+ ":")
  end.

(** [loadProducts] of [App.js].  [fetch] is the network: what each URL
    answers.  [settled] is the order in which the five promises settle,
    which is the network's to decide: the [.catch] callbacks run in that
    order.  [Promise.all] hands the results over in batch order whatever
    that order was. *)
Definition loadProducts_batches (fetch : string → FetchOutcome)
  (settled : list nat) : Eff World unit :=
  bind (Array_map (settle_batch fetch) settled) (λ _,
  let allResults := map (batch_result fetch) (seq 0 totalBatches) in
  try_finally
    (try_catch
       (let rawProducts := omap keep_object (flat allResults) in
        bind (Array_map augment_object rawProducts) (λ augmented,
        setItems augmented))
       (λ err,
         bind (console_error "Failed loading products:") (λ _,
         showMessage "Failed to load products from API." error)))
    (setLoading false)).

(** The entries the five replies hold, in batch order; a failed batch
    holds none. *)
Definition fetched_entries (fetch : string → FetchOutcome) : list Entry :=
  flat (map (batch_result fetch) (seq 0 totalBatches)).

(** The batches that failed, among those listed, in the order listed. *)
Definition batch_failed (fetch : string → FetchOutcome) (i : nat) : bool :=
  match fetch (batch_url i) with
  | Json _ => false
  | _ => true
  end.

Definition failed_among (fetch : string → FetchOutcome) (batches : list nat)
  : list nat :=
  filter (λ i, batch_failed fetch i = true) batches.

(** The console line of a failed batch. *)
Definition batch_error_line (i : nat) : string :=
  "Error fetching batch " +:+ pretty i +:+ ":".

(** An order in which the five promises can settle. *)
Definition settle_order (settled : list nat) : Prop :=
  settled ≡ₚ seq 0 totalBatches.

(** The products among some entries, in order. *)
Definition products_of (entries : list Entry) : list RawProduct.t :=
  omap (λ e, match e with Product p => Some p | _ => None end) entries.

Definition has_untitled (entries : list Entry) : bool :=
  existsb (λ e, match e with Untitled => true | _ => false end) entries.

(** ** What is rendered

    The element tree [InventoryDashboard] returns, reduced to what depends
    on the state: the loader or the page, the banner, the two buttons and
    the status line of [Toolbar], the three [StatCard]s and the table rows.
    Fixed styling and fixed text are left out. *)

Module View.

Record Button := {
  disabled : bool;
  background : string;
  cursor : string;
  label : string;
}.

Record Toolbar := {
  trainButton : Button;
  predictButton : Button;
  status : string;
  statusColor : string;
}.

Inductive CardValue :=
| Count (n : nat)
| Text (s : string).

Record StatCard := {
  cardLabel : string;
  cardValue : CardValue;
  accent : string;
}.

Record Alert := {
  backgroundColor : string;
  color : string;
  border : string;
  alertText : string;
}.

Record Row := {
  key : Z;
  nameCell : jsstring;
  inventoryCell : Z;
  salesCell : Z;
  leadTimeCell : Z;
  reorderCell : string;
  reorderColor : string;
}.

Inductive t :=
| Loader (text : string)
| Page (alert : option Alert) (toolbar : Toolbar) (cards : list StatCard)
    (rows : list Row).

End View.

(** The string a [reorderPrediction] is. *)
Definition Prediction_text (s : Prediction) : string :=
  match s with
  | Pending => "Pending"
  | REORDER => "REORDER"
  | No_Reorder => "No Reorder"
  end.

(** The string a message type is. *)
Definition type_name (t : MessageType) : string :=
  match t with
  | success => "success"
  | error => "error"
  | warning => "warning"
  end.

Definition colorMap : gmap string string :=
  {[ "success" := "#1f7a24"; "error" := "#b22b2b"; "warning" := "#f39c12" ]}.

Definition bgColorMap : gmap string string :=
  {[ "success" := "#e6ffe6"; "error" := "#ffe6e6"; "warning" := "#fff8e6" ]}.

(** [MessageAlert({ message })], for the message types [showMessage] is
    called with. *)
Definition MessageAlert (message : option Message) : option View.Alert :=
  match message with
  | None => None
  | Some m =>
      Some {| View.backgroundColor :=
                default "#fff" (bgColorMap !! type_name (type m));
              View.color := default "#333" (colorMap !! type_name (type m));
              View.border :=
                "1px solid " +:+
                  default "#ccc" (colorMap !! type_name (type m));
              View.alertText := text m |}
  end.

(** [Toolbar({ onTrain, onPredict, isTrained })] *)
Definition Toolbar (rev : Revision) (isTrained : bool) : View.Toolbar :=
  {| View.trainButton :=
       {| View.disabled := isTrained;
          View.background :=
            if isTrained
            then match rev with
                 | AppJs => "#5cb85c"
                 | InventoryDashboardJsx => "#9bbf9b"
                 end
            else "#0b6f9b";
          View.cursor := if isTrained then "default" else "pointer";
          View.label :=
            if isTrained then "Model Trained" else "1 — Train Model" |};
     View.predictButton :=
       {| View.disabled := negb isTrained;
          View.background := if isTrained then "#36454f" else "#9aa0a6";
          View.cursor := if isTrained then "pointer" else "default";
          View.label := "2 — Run Predictions" |};
     View.status :=
       if isTrained then "Ready for Prediction" else "Model needs training";
     View.statusColor := if isTrained then "#087f07" else "#b00020" |}.

(** One [<tr>] of the table. *)
Definition table_row (row : Item.t) : View.Row :=
  {| View.key := Item.id row;
     View.nameCell := Item.name row;
     View.inventoryCell := Item.currentInventory row;
     View.salesCell := Item.averageSalesPerWeek row;
     View.leadTimeCell := Item.daysToReplenish row;
     View.reorderCell := Prediction_text (Item.reorderPrediction row);
     View.reorderColor :=
       if decide (Item.reorderPrediction row = REORDER)
       then "#b22b2b" else "#1f7a24" |}.

(** What [InventoryDashboard] returns in a given state. *)
Definition render (rev : Revision) (d : Dashboard) : View.t :=
  if loading d
  then View.Loader
         match rev with
         | AppJs => "Loading products from API... (Fetching 5 batches of 20)"
         | InventoryDashboardJsx => "Loading products from API..."
         end
  else
    View.Page
      match rev with
      | AppJs => MessageAlert (message d)
      | InventoryDashboardJsx => None
      end
      (Toolbar rev (isModelReady d))
      [ {| View.cardLabel :=
             match rev with
             | AppJs =>
                 "Products loaded (approx " +:+ pretty (length (items d))
                   +:+ ")"
             | InventoryDashboardJsx => "Products (sample)"
             end;
           View.cardValue := View.Count (length (items d));
           View.accent := "#0b6f9b" |};
        {| View.cardLabel := "Items flagged REORDER";
           View.cardValue := View.Count (totalReorder d);
           View.accent := "#b22b2b" |};
        {| View.cardLabel := "Model status";
           View.cardValue :=
             View.Text (if isModelReady d then "Trained" else "Not trained");
           View.accent := if isModelReady d then "#087f07" else "#b00020" |} ]
      (map table_row (items d)).

(** The buttons of the page. *)
Inductive ButtonId := TrainButton | PredictButton.

(** A click on the button reaches its handler: the page is shown and the
    button is not disabled. *)
Definition clickable (v : View.t) (b : ButtonId) : bool :=
  match v with
  | View.Loader _ => false
  | View.Page _ toolbar _ _ =>
      match b with
      | TrainButton => negb (View.disabled (View.trainButton toolbar))
      | PredictButton => negb (View.disabled (View.predictButton toolbar))
      end
  end.

(** The rows shown in the colour of a reorder. *)
Definition red_rows (rows : list View.Row) : nat :=
  length (filter (λ r, View.reorderColor r = "#b22b2b") rows).

(** ** More that holds of every world the component can be in *)

Definition all_pending (items : list Item.t) : Prop :=
  Forall (λ it, Item.reorderPrediction it = Pending) items.

Definition none_pending (items : list Item.t) : Prop :=
  Forall (λ it, Item.reorderPrediction it = REORDER ∨
                Item.reorderPrediction it = No_Reorder) items.

Definition session_invariant (w : World) : Prop :=
  totalReorder (ui w) = flagged (items (ui w)) ∧
  (all_pending (items (ui w)) ∨ none_pending (items (ui w))) ∧
  (loading (ui w) = true →
   items (ui w) = [] ∧ tfModel (ui w) = None).

(** More sample data: the network of five replies of which the second is
    refused, the fourth is not JSON and the others hold one product each
    (the first also a [null]), and the same with a reply that holds an
    object without a title. *)
Definition sample_fetch : string → FetchOutcome :=
  λ url,
    if decide (url = batch_url 0) then
      Json (JsonArray [Product (RawProduct.mk 1 (lit "Backpack") 109.95);
                       Primitive])
    else if decide (url = batch_url 1) then NotOk 503
    else if decide (url = batch_url 2) then
      Json (JsonArray [Product (RawProduct.mk 41 (lit "Jacket") 55.99)])
    else if decide (url = batch_url 3) then BadJson "Unexpected token <"
    else Json (JsonArray [Product (RawProduct.mk 81 (lit "Monitor") 999.99)]).

Definition sample_fetch_untitled : string → FetchOutcome :=
  λ url,
    if decide (url = batch_url 0) then
      Json (JsonArray [Product (RawProduct.mk 1 (lit "Backpack") 109.95)])
    else if decide (url = batch_url 1) then
      Json (JsonValue Untitled)
    else Json (JsonArray []).

(** A network that answers for large inventories and fails on the
    others. *)
Definition picky_network : Tf.Network :=
  λ x, match x with
       | [[Num inventory; Num sales; Num leadTime]] =>
           if Qle_bool inventory 100
           then Throw "the backend was lost"
           else Normal [[Num 0.2]]
       | _ => Throw "expected a tensor of shape [1,3]"
       end.

(** The library calls the handler of [e] makes in [w] all succeed: the fit
    of a training, the forward passes of a prediction. *)
Definition library_ok (e : Event) (w : World) : bool :=
  match e with
  | ClickTrain (Throw _) => false
  | ClickTrain (Normal _) => true
  | ClickPredict =>
      match tfModel (ui w) with
      | Some model => forallb (forward_succeeds model) (items (ui w))
      | None => true
      end
  | Mount _ => true
  | MessageTimeout => true
  end.

(** The records of the two sample products. *)
Definition sample_backpack_record : Item.t :=
  synthesize
    (RawProduct.mk 1
       (lit "Fjallraven - Foldsack No. 1 Backpack, Fits 15 Laptops") 109.95)
    (1 # 2) (1 # 2).

Definition sample_shirt_record : Item.t :=
  synthesize
    (RawProduct.mk 2 (lit "Mens Casual Premium Slim Fit T-Shirts") 22.3)
    (1 # 2) (1 # 2).

(** ** A training in two halves

    [handleTrainModel] is an async function: it runs up to
    [await model.fit(...)], where it is suspended with the fit under way,
    and is resumed when the fit settles.  Between the two halves the
    component is rendered and can take other events.  What the suspended
    function keeps is its two tensors. *)

Section TrainingHalves.
Local Open Scope eff_scope.
Variable rev : Revision.

(** From the click to the [await]. *)
Definition handleTrainModel_begin : Eff World (nat * nat) :=
  setModelReady false ;;
  showMessage_AppJs rev "Training model... this will take a few seconds."
    warning ;;
  trainingFeatures <- tf_ (Tf.tensor2d (trainingFeatures_data rev)) ;;
  trainingLabels <- tf_ (Tf.tensor2d (trainingLabels_data rev)) ;;
  x <- tf_ (Tf.read trainingFeatures) ;;
  y <- tf_ (Tf.read trainingLabels) ;;
  tf_ (Tf.record_call
         (Tf.CallFit x y {| Tf.epochs := 200; Tf.shuffle := true |})) ;;
  ret (trainingFeatures, trainingLabels).

(** From the settling of the fit to the end. *)
Definition handleTrainModel_resume (outcome : Completion Tf.Network)
  (suspended : nat * nat) : Eff World unit :=
  try_catch
    (net <- match outcome with
            | Normal net => ret net
            | Throw e => throw e
            end ;;
     tf_ (Tf.dispose (fst suspended)) ;;
     tf_ (Tf.dispose (snd suspended)) ;;
     setTfModel (Some (model_of net)) ;;
     setModelReady true ;;
     notify rev "Model trained successfully! Ready to predict." success)
    (λ err,
      console_error "Training error:" ;;
      notify rev "Error training model (check console)." error).

End TrainingHalves.

(** ** Facts about the primitives *)

Lemma Math_round_mono (x y : Q) :
  (x <= y)%Q → Math_round x ≤ Math_round y.
Proof.
  intros Hxy. unfold Math_round. apply Qfloor_resp_le.
  apply Qplus_le_l. exact Hxy.
Qed.

Lemma Math_round_integer (z : Z) : Math_round (inject_Z z) = z.
Proof.
  unfold Math_round.
  assert (Hlo : z ≤ Qfloor (inject_Z z + (1 # 2))).
  { rewrite <- (Qfloor_Z z) at 1. apply Qfloor_resp_le.
    rewrite <- (Qplus_0_r (inject_Z z)) at 1.
    apply Qplus_le_r. discriminate. }
  assert (Hhi : Qfloor (inject_Z z + (1 # 2)) < z + 1).
  { rewrite Zlt_Qlt.
    apply Qle_lt_trans with (y := (inject_Z z + (1 # 2))%Q).
    - apply Qfloor_le.
    - rewrite inject_Z_plus. apply Qplus_lt_r. reflexivity. }
  lia.
Qed.

Lemma substring_prefix (n : nat) (s : jsstring) : substring 0 n s = take n s.
Proof.
  unfold substring. rewrite Nat.min_0_l, Nat.max_0_l, Nat.sub_0_r.
  reflexivity.
Qed.

(** ** Running effectful code *)

Lemma returns_ret {S A} (a : A) (s : S) (post : A → S → Prop) :
  post a s → returns (ret a) s post.
Proof. intros H. exists a, s. split; [reflexivity | exact H]. Qed.

Lemma returns_bind {S A B} (m : Eff S A) (k : A → Eff S B) (s : S)
  (mid : A → S → Prop) (post : B → S → Prop) :
  returns m s mid →
  (∀ a s', mid a s' → returns (k a) s' post) →
  returns (bind m k) s post.
Proof.
  intros (a & s' & Hm & Hmid) Hk.
  destruct (Hk a s' Hmid) as (b & s'' & Hkb & Hpost).
  exists b, s''. split; [| exact Hpost].
  unfold bind. rewrite Hm. exact Hkb.
Qed.

Lemma returns_weaken {S A} (m : Eff S A) (s : S) (P P' : A → S → Prop) :
  returns m s P → (∀ a s', P a s' → P' a s') → returns m s P'.
Proof.
  intros (a & s' & Hm & HP) Himp. exists a, s'. split; [exact Hm | auto].
Qed.

(** A callback that always returns, keeps an invariant [inv] of the state and
    relates each element to its image by [rel], makes [Array_map] return a
    list related to the array element by element. *)
Lemma Array_map_returns {S A B} (callback : A → Eff S B)
  (inv : S → Prop) (rel : A → B → Prop) :
  (∀ a s, inv s → returns (callback a) s (λ b s', inv s' ∧ rel a b)) →
  ∀ array s, inv s →
    returns (Array_map callback array) s (λ bs s', inv s' ∧ Forall2 rel array bs).
Proof.
  intros Hcb array. induction array as [| a rest IH]; intros s Hs; simpl.
  - apply returns_ret. split; [exact Hs | constructor].
  - eapply returns_bind; [apply Hcb; exact Hs |].
    intros b s1 [Hs1 Hab].
    eapply returns_bind; [apply IH; exact Hs1 |].
    intros bs s2 [Hs2 Hrest].
    apply returns_ret. split; [exact Hs2 | constructor; assumption].
Qed.

(** ** The feature synthesizer *)

(** One product: two draws are taken, nothing else changes, and the record
    is the object literal of the source. *)
Lemma augment_returns (p : RawProduct.t) (w : World) :
  returns (augment p) w (λ it w',
    let baseInv :=
      Math_round (RawProduct.price p * 2.5 + inject_Z (RawProduct.id p) * 5) in
    Item.id it = RawProduct.id p ∧
    Item.name it =
      (if (40 <? length (RawProduct.title p))%nat
       then substring 0 40 (RawProduct.title p) ++ lit "..."
       else RawProduct.title p) ∧
    Item.currentInventory it = baseInv ∧
    Item.averageSalesPerWeek it =
      Math_round (inject_Z baseInv * (0.1 + random w 0%nat * 0.2)) ∧
    Item.daysToReplenish it = Math_round (1 + random w 1%nat * 5) ∧
    Item.reorderPrediction it = Pending ∧
    features_ok it ∧
    ui w' = ui w ∧ tf w' = tf w ∧
    (∀ n, random w' n = random w (S (S n)))).
Proof.
  unfold returns, augment, bind, Math_random, ret. simpl.
  eexists _, _. split; [reflexivity |]. simpl.
  unfold features_ok. simpl. repeat split; reflexivity.
Qed.

Lemma uniform_draws_after (w w' : World) :
  (∀ n, random w' n = random w (S (S n))) →
  uniform_draws w → uniform_draws w'.
Proof. intros Hshift Hw n. rewrite Hshift. apply Hw. Qed.

(** The synthesizer always returns, one record per product, and whatever
    holds of each product and its record by [augment_returns] holds along the
    two lists. *)
Lemma createAugmentedProducts_returns
  (inv : World → Prop) (rel : RawProduct.t → Item.t → Prop) :
  (∀ p w, inv w → returns (augment p) w (λ it w', inv w' ∧ rel p it)) →
  ∀ rawProducts w, inv w →
    returns (createAugmentedProducts rawProducts) w (λ items w',
      inv w' ∧ Forall2 rel rawProducts items).
Proof. intros Hcb. apply Array_map_returns. exact Hcb. Qed.

Lemma sales_bounds (inventory : Z) (r : Q) :
  (0 <= r)%Q → (r < 1)%Q →
  let sales := Math_round (inject_Z inventory * (0.1 + r * 0.2)) in
  (0 ≤ inventory →
     Math_round (inject_Z inventory * 0.1) ≤ sales
       ≤ Math_round (inject_Z inventory * 0.3)) ∧
  (inventory ≤ 0 →
     Math_round (inject_Z inventory * 0.3) ≤ sales
       ≤ Math_round (inject_Z inventory * 0.1)).
Proof.
  intros Hr0 Hr1 sales. subst sales.
  split; intros Hsign.
  - assert (Hx : (0 <= inject_Z inventory)%Q)
      by (change 0%Q with (inject_Z 0); rewrite <- Zle_Qle; exact Hsign).
    split; apply Math_round_mono; nra.
  - assert (Hx : (inject_Z inventory <= 0)%Q)
      by (change 0%Q with (inject_Z 0); rewrite <- Zle_Qle; exact Hsign).
    split; apply Math_round_mono; nra.
Qed.

Lemma leadTime_bounds (r : Q) :
  (0 <= r)%Q → (r < 1)%Q → 1 ≤ Math_round (1 + r * 5) ≤ 6.
Proof.
  intros Hr0 Hr1. split.
  - change 1 with (Math_round (inject_Z 1)) at 1.
    apply Math_round_mono. change (inject_Z 1) with 1%Q. lra.
  - rewrite <- (Math_round_integer 6).
    apply Math_round_mono. change (inject_Z 6) with 6%Q. lra.
Qed.

(** C5, as amended.  For every product list and every generator whose draws
    are in [0,1), the synthesizer returns one record per product, and in each
    record with a non-negative [currentInventory] the field
    [averageSalesPerWeek] lies in the closed interval from
    [round(currentInventory * 0.10)] to [round(currentInventory * 0.30)];
    in a record with a negative [currentInventory] it lies between the same
    two numbers taken in the other order. *)
Theorem averageSalesPerWeek_interval
  (rawProducts : list RawProduct.t) (w : World) :
  uniform_draws w →
  returns (createAugmentedProducts rawProducts) w (λ items _,
    length items = length rawProducts ∧
    Forall (λ it,
      (0 ≤ Item.currentInventory it → sales_in_interval it) ∧
      (Item.currentInventory it ≤ 0 → sales_in_mirrored_interval it)) items).
Proof.
  intros Hdraws.
  eapply returns_weaken.
  - apply (createAugmentedProducts_returns uniform_draws
             (λ _ it,
               (0 ≤ Item.currentInventory it → sales_in_interval it) ∧
               (Item.currentInventory it ≤ 0 →
                  sales_in_mirrored_interval it))); [| exact Hdraws].
    intros p w0 Hw0.
    eapply returns_weaken; [apply augment_returns |].
    intros it w1 (_ & _ & Hinv & Hsales & _ & _ & _ & _ & _ & Hshift).
    split; [exact (uniform_draws_after _ _ Hshift Hw0) |].
    simpl in Hinv, Hsales.
    unfold sales_in_interval, sales_in_mirrored_interval.
    rewrite Hsales, Hinv.
    destruct (Hw0 0%nat) as [Hr0 Hr1].
    apply sales_bounds; assumption.
  - intros items w' [_ Hall]. split.
    + symmetry. exact (Forall2_length _ _ _ Hall).
    + clear -Hall. induction Hall; constructor; assumption.
Qed.

Lemma averageSalesPerWeek_interval_witness :
  let w := initial_world (λ _, 1 # 2) in
  let p := RawProduct.mk 3 (lit "Mens Cotton Jacket") 55.99 in
  uniform_draws w ∧
  returns (createAugmentedProducts [p]) w (λ items _,
    length items = 1%nat ∧
    Forall (λ it,
      (0 ≤ Item.currentInventory it → sales_in_interval it) ∧
      (Item.currentInventory it ≤ 0 → sales_in_mirrored_interval it)) items).
Proof.
  assert (H : uniform_draws (initial_world (λ _, 1 # 2))).
  { intros n. split; vm_compute; congruence. }
  split; [exact H |].
  exact (averageSalesPerWeek_interval
           [RawProduct.mk 3 (lit "Mens Cotton Jacket") 55.99] _ H).
Defined.

(** C5 as stated fails on a record with a negative inventory: the product
    with id 1 and price -6 gets [currentInventory = -10] and, on the draw
    0.5, [averageSalesPerWeek = -2], which is not between
    [round(-10 * 0.10) = -1] and [round(-10 * 0.30) = -3]. *)
Lemma averageSalesPerWeek_interval_counterexample :
  let w := initial_world (λ _, 1 # 2) in
  let p := RawProduct.mk 1 (lit "Returned item") (-6) in
  uniform_draws w ∧
  ∃ it w',
    createAugmentedProducts [p] w = (Normal [it], w') ∧
    Item.currentInventory it = -10 ∧
    Item.averageSalesPerWeek it = -2 ∧
    Math_round (inject_Z (Item.currentInventory it) * 0.1) = -1 ∧
    Math_round (inject_Z (Item.currentInventory it) * 0.3) = -3 ∧
    ¬ sales_in_interval it.
Proof.
  split.
  - intros n. split; vm_compute; congruence.
  - eexists _, _. split; [reflexivity |].
    repeat split; try reflexivity.
    unfold sales_in_interval. vm_compute. intros [H _]. apply H. reflexivity.
Qed.

(** C6.  For every product list and every generator whose draws are in
    [0,1), the synthesizer returns one record per product and in each of them
    [daysToReplenish] is an integer between 1 and 6, ends included. *)
Theorem daysToReplenish_range
  (rawProducts : list RawProduct.t) (w : World) :
  uniform_draws w →
  returns (createAugmentedProducts rawProducts) w (λ items _,
    length items = length rawProducts ∧
    Forall (λ it, 1 ≤ Item.daysToReplenish it ≤ 6) items).
Proof.
  intros Hdraws.
  eapply returns_weaken.
  - apply (createAugmentedProducts_returns uniform_draws
             (λ _ it, 1 ≤ Item.daysToReplenish it ≤ 6)); [| exact Hdraws].
    intros p w0 Hw0.
    eapply returns_weaken; [apply augment_returns |].
    intros it w1 (_ & _ & _ & _ & Hlead & _ & _ & _ & _ & Hshift).
    split; [exact (uniform_draws_after _ _ Hshift Hw0) |].
    rewrite Hlead.
    destruct (Hw0 1%nat) as [Hr0 Hr1].
    apply leadTime_bounds; assumption.
  - intros items w' [_ Hall]. split.
    + symmetry. exact (Forall2_length _ _ _ Hall).
    + clear -Hall. induction Hall; constructor; assumption.
Qed.

Lemma daysToReplenish_range_witness :
  let w := initial_world (λ n, if Nat.even n then 0%Q else 999 # 1000) in
  let p := RawProduct.mk 3 (lit "Mens Cotton Jacket") 55.99 in
  let q := RawProduct.mk 4 (lit "Mens Casual Slim Fit") 15.99 in
  uniform_draws w ∧
  returns (createAugmentedProducts [p; q]) w (λ items _,
    length items = 2%nat ∧
    Forall (λ it, 1 ≤ Item.daysToReplenish it ≤ 6) items).
Proof.
  assert (H : uniform_draws
                (initial_world (λ n, if Nat.even n then 0%Q else 999 # 1000))).
  { intros n. simpl. destruct (Nat.even n); split; vm_compute; congruence. }
  split; [exact H |].
  exact (daysToReplenish_range
           [RawProduct.mk 3 (lit "Mens Cotton Jacket") 55.99;
            RawProduct.mk 4 (lit "Mens Casual Slim Fit") 15.99] _ H).
Defined.

(** C9.  For every product list the synthesizer returns one record per
    product, in order, and for every title the [name] of its record is the
    first 40 characters of the title followed by ["..."] when the title is
    longer than 40, 43 characters in all (so also for a title of 45), and the
    title itself when its length is 40 or less. *)
Theorem displayName_truncation
  (rawProducts : list RawProduct.t) (w : World) :
  returns (createAugmentedProducts rawProducts) w (λ items _,
    Forall2 displayName_of rawProducts items).
Proof.
  eapply returns_weaken.
  - apply (createAugmentedProducts_returns (λ _, True) displayName_of);
      [| exact I].
    intros p w0 _.
    eapply returns_weaken; [apply augment_returns |].
    intros it w1 (_ & Hname & _). split; [exact I |].
    unfold displayName_of. rewrite Hname, substring_prefix.
    destruct (40 <? length (RawProduct.title p))%nat eqn:Hlen.
    + apply Nat.ltb_lt in Hlen.
      split; [| intros; lia]. intros _. split; [reflexivity |].
      rewrite length_app, length_take.
      change (length (lit "...")) with 3%nat. lia.
    + apply Nat.ltb_ge in Hlen.
      split; [intros; lia |]. intros _. reflexivity.
  - intros items w' [_ Hall]. exact Hall.
Qed.

(** ** The engine's bookkeeping *)

(** Two tensors made one after the other and both disposed leave the
    registry as it was. *)
Lemma registry_released (reg : gmap nat Tf.TensorData) (t : nat)
  (x y : Tf.TensorData) :
  reg !! t = None → reg !! S t = None →
  delete (S t) (delete t (<[S t := y]> (<[t := x]> reg))) = reg.
Proof.
  intros Ht HSt. apply map_eq. intros i.
  destruct (decide (i = S t)) as [-> | Hne1].
  - rewrite lookup_delete_eq. symmetry. exact HSt.
  - rewrite lookup_delete_ne by congruence.
    destruct (decide (i = t)) as [-> | Hne2].
    + rewrite lookup_delete_eq. symmetry. exact Ht.
    + rewrite lookup_delete_ne by congruence.
      rewrite !lookup_insert_ne by congruence. reflexivity.
Qed.

Lemma engine_wf_fresh : Tf.engine_wf Tf.fresh_engine.
Proof. intros i _. apply lookup_empty. Qed.

(** Handing out ids and putting any values under ids already handed out
    keeps the registry well formed. *)
Lemma engine_wf_advance (e : Tf.Engine) (next : nat)
  (reg : gmap nat Tf.TensorData) (log : list Tf.LibCall) :
  Tf.engine_wf e →
  (Tf.nextTensorId e ≤ next)%nat →
  (∀ i, (next ≤ i)%nat → reg !! i = Tf.registry e !! i) →
  Tf.engine_wf {| Tf.nextTensorId := next;
                  Tf.registry := reg; Tf.calls := log |}.
Proof.
  intros Hwf Hnext Hreg i Hi. simpl in Hi. simpl.
  rewrite Hreg by exact Hi. apply Hwf. lia.
Qed.

(** ** The prediction pass, one record *)

Lemma predictItem_run (model : Tf.LayersModel) (it : Item.t) (n : nat)
  (w : World) :
  let t := Tf.nextTensorId (tf w) in
  let x := [row (Item.mlFeatures it)] in
  predictItem model it n w =
    match Tf.forward model x with
    | Normal output =>
        (Normal (Item.with_reorderPrediction it (suggestion_for model it),
                 if decide (suggestion_for model it = REORDER)
                 then S n else n),
         set_tf {| Tf.nextTensorId := S (S t);
                   Tf.registry :=
                     delete (S t)
                       (delete t
                          (<[S t := output]> (<[t := x]> (Tf.registry (tf w)))));
                   Tf.calls := Tf.calls (tf w) ++ [Tf.CallPredict x] |} w)
    | Throw err =>
        (Throw err,
         set_tf {| Tf.nextTensorId := S t;
                   Tf.registry := <[t := x]> (Tf.registry (tf w));
                   Tf.calls := Tf.calls (tf w) ++ [Tf.CallPredict x] |} w)
    end.
Proof.
  intros t x. subst t x.
  unfold predictItem, suggestion_for, probability, tf_, zoom, bind, ret.
  unfold Tf.tensor2d, Tf.predict, Tf.dataSync, Tf.read, Tf.record_call,
    Tf.dispose, modify, bind, ret, throw.
  simpl. rewrite lookup_insert_eq. simpl.
  destruct (Tf.forward model [row (Item.mlFeatures it)]) as [output | err];
    simpl; [| reflexivity].
  rewrite lookup_insert_eq. reflexivity.
Qed.

(** ** The prediction pass, the whole list *)

Lemma flagged_cons (it : Item.t) (items : list Item.t) :
  flagged (it :: items) =
    if decide (Item.reorderPrediction it = REORDER)
    then S (flagged items) else flagged items.
Proof.
  unfold flagged. rewrite filter_cons.
  destruct (decide (Item.reorderPrediction it = REORDER)); reflexivity.
Qed.

Lemma predictItems_cons (model : Tf.LayersModel) (it : Item.t)
  (rest : list Item.t) (n : nat) (w : World) :
  predictItems model (it :: rest) n w =
    match predictItem model it n w with
    | (Normal first, w1) =>
        match predictItems model rest (snd first) w1 with
        | (Normal others, w2) =>
            (Normal (fst first :: fst others, snd others), w2)
        | (Throw err, w2) => (Throw err, w2)
        end
    | (Throw err, w1) => (Throw err, w1)
    end.
Proof. reflexivity. Qed.

(** After one record has gone through, a well-formed engine is well formed
    and holds the tensors it held. *)
Lemma engine_after_item (w : World) (x output : Tf.TensorData)
  (log : list Tf.LibCall) :
  let t := Tf.nextTensorId (tf w) in
  let e1 :=
    {| Tf.nextTensorId := S (S t);
       Tf.registry :=
         delete (S t)
           (delete t (<[S t := output]> (<[t := x]> (Tf.registry (tf w)))));
       Tf.calls := log |} in
  Tf.engine_wf (tf w) →
  Tf.engine_wf e1 ∧ Tf.registry e1 = Tf.registry (tf w).
Proof.
  intros t e1 Hwf.
  assert (Hreg : Tf.registry e1 = Tf.registry (tf w)).
  { subst e1. simpl. apply registry_released; apply Hwf; subst t; lia. }
  split; [| exact Hreg].
  subst e1. simpl in Hreg. rewrite Hreg.
  apply (engine_wf_advance (tf w)); [exact Hwf | subst t; lia | reflexivity].
Qed.

(** What the loop of [handlePredict] does.  Only the engine changes.  When
    every forward pass succeeds the loop returns the relabelled records and
    their count, one call per record was made, and a well-formed engine
    holds the tensors it started with.  When some forward pass fails the loop
    throws, and a well-formed engine holds one tensor more than before. *)
Lemma predictItems_spec (model : Tf.LayersModel) (items : list Item.t) :
  ∀ (n : nat) (w : World),
    let r := predictItems model items n w in
    same_outside_engine w (snd r) ∧
    (Tf.engine_wf (tf w) → Tf.engine_wf (tf (snd r))) ∧
    (∃ k, Tf.calls (tf (snd r)) =
            Tf.calls (tf w) ++ map predict_call (take k items)) ∧
    (if forallb (forward_succeeds model) items
     then fst r = Normal (map (predicted model) items,
                          (n + flagged (map (predicted model) items))%nat) ∧
          Tf.calls (tf (snd r)) =
            Tf.calls (tf w) ++ map predict_call items ∧
          (Tf.engine_wf (tf w) →
           Tf.registry (tf (snd r)) = Tf.registry (tf w))
     else (∃ err, fst r = Throw err) ∧
          (Tf.engine_wf (tf w) →
           Tf.numTensors (tf (snd r)) = S (Tf.numTensors (tf w)))).
Proof.
  induction items as [| it rest IH]; intros n w r; subst r.
  - simpl. unfold same_outside_engine.
    repeat split; try reflexivity; try (intros; assumption).
    + exists 0%nat. simpl. rewrite app_nil_r. reflexivity.
    + rewrite Nat.add_0_r. reflexivity.
    + rewrite app_nil_r. reflexivity.
  - rewrite predictItems_cons, predictItem_run. cbn [forallb].
    unfold forward_succeeds at 1.
    destruct (Tf.forward model [row (Item.mlFeatures it)])
      as [output | err] eqn:Hfwd.
    + (* this record goes through *)
      set (n1 := if decide (suggestion_for model it = REORDER)
                 then S n else n).
      set (w1 := set_tf _ w).
      pose proof (engine_after_item w [row (Item.mlFeatures it)] output
                    (Tf.calls (tf w) ++ [predict_call it])) as Hitem.
      cbv zeta in Hitem. fold (predict_call it) in w1. 
      change (Tf.engine_wf (tf w) →
              Tf.engine_wf (tf w1) ∧
              Tf.registry (tf w1) = Tf.registry (tf w)) in Hitem.
      specialize (IH n1 w1). cbn [fst snd] in *.
      destruct IH as (Hout & Hwf2 & [k Hk] & Hcase).
      assert (Hlog : ∀ l, (Tf.calls (tf w1) ++ l) =
                          Tf.calls (tf w) ++ predict_call it :: l).
      { intros l. subst w1. simpl. rewrite <- app_assoc. reflexivity. }
      destruct (predictItems model rest n1 w1) as [[others | err] w2] eqn:Hrest;
        cbn [fst snd] in *.
      * split; [exact Hout |].
        split; [intros Hwf; apply Hwf2, Hitem, Hwf |].
        split; [exists (S k); rewrite Hk; apply Hlog |].
        cbn [andb].
        destruct (forallb (forward_succeeds model) rest).
        -- destruct Hcase as (Hres & Hcalls & Hreg2).
           injection Hres as ->. cbn [fst snd map].
           split; [| split].
           ++ f_equal. f_equal. rewrite flagged_cons. unfold predicted at 2.
              simpl. subst n1.
              destruct (decide (suggestion_for model it = REORDER)); lia.
           ++ rewrite Hcalls. apply Hlog.
           ++ intros Hwf. destruct (Hitem Hwf) as [Hwf1 Hreg1].
              rewrite (Hreg2 Hwf1). exact Hreg1.
        -- destruct Hcase as ([err Herr] & _). discriminate Herr.
      * split; [exact Hout |].
        split; [intros Hwf; apply Hwf2, Hitem, Hwf |].
        split; [exists (S k); rewrite Hk; apply Hlog |].
        cbn [andb].
        destruct (forallb (forward_succeeds model) rest).
        -- destruct Hcase as (Hres & _). discriminate Hres.
        -- destruct Hcase as (_ & Hsize). split; [eauto |].
           intros Hwf. destruct (Hitem Hwf) as [Hwf1 Hreg1].
           rewrite (Hsize Hwf1). unfold Tf.numTensors. rewrite Hreg1.
           reflexivity.
    + (* the forward pass fails on this record *)
      cbn [fst snd andb]. unfold same_outside_engine. simpl.
      repeat split.
      * intros Hwf.
        apply (engine_wf_advance (tf w)); [exact Hwf | lia |].
        intros i Hi. apply lookup_insert_ne. lia.
      * exists 1%nat. reflexivity.
      * eauto.
      * intros Hwf. unfold Tf.numTensors. simpl.
        apply map_size_insert_None. apply Hwf. lia.
Qed.

(** ** The prediction handler *)

Lemma handlePredict_untrained (rev : Revision) (w : World) :
  tfModel (ui w) = None →
  handlePredict rev w = notify rev "Please train the model first!" warning w.
Proof.
  intros Hnone. unfold handlePredict, bind, gets. rewrite Hnone. reflexivity.
Qed.

Lemma handlePredict_trained (rev : Revision) (model : Tf.LayersModel)
  (w : World) :
  tfModel (ui w) = Some model →
  handlePredict rev w =
    match predictItems model (items (ui w)) 0%nat w with
    | (Normal mapped, w1) =>
        bind (setItems (fst mapped)) (λ _,
        bind (setTotalReorder (snd mapped)) (λ _,
        showMessage_AppJs rev
          ("Prediction complete. " +:+ pretty (snd mapped)
             +:+ " items flagged for reorder.") success)) w1
    | (Throw err, w1) => (Throw err, w1)
    end.
Proof.
  intros Hsome. unfold handlePredict, bind, gets. rewrite Hsome. reflexivity.
Qed.

(** The handler on a component that holds a model.  When every forward pass
    succeeds, the records are replaced by the relabelled ones and the count is
    stored; otherwise the handler throws and the component keeps its state.
    In both cases the engine is the one the loop leaves. *)
Lemma handlePredict_spec (rev : Revision) (model : Tf.LayersModel)
  (w : World) :
  tfModel (ui w) = Some model →
  let r := handlePredict rev w in
  let loop := predictItems model (items (ui w)) 0%nat w in
  tf (snd r) = tf (snd loop) ∧
  alerts (snd r) = alerts w ∧ console (snd r) = console w ∧
  random (snd r) = random w ∧
  loading (ui (snd r)) = loading (ui w) ∧
  isModelReady (ui (snd r)) = isModelReady (ui w) ∧
  tfModel (ui (snd r)) = tfModel (ui w) ∧
  (if forallb (forward_succeeds model) (items (ui w))
   then fst r = Normal tt ∧
        items (ui (snd r)) = map (predicted model) (items (ui w)) ∧
        totalReorder (ui (snd r)) =
          flagged (map (predicted model) (items (ui w)))
   else (∃ err, fst r = Throw err) ∧ ui (snd r) = ui w).
Proof.
  intros Hsome r loop. subst r loop.
  rewrite (handlePredict_trained rev model w Hsome).
  pose proof (predictItems_spec model (items (ui w)) 0%nat w) as Hloop.
  cbv zeta in Hloop.
  destruct Hloop as ((Hui & Hrand & Halerts & Hcons) & _ & _ & Hcase).
  destruct (predictItems model (items (ui w)) 0%nat w)
    as [[mapped | err] w1] eqn:Hrun; cbn [fst snd] in *.
  - destruct (forallb (forward_succeeds model) (items (ui w))).
    + destruct Hcase as (Hres & _). injection Hres as ->.
      unfold bind, setItems, setTotalReorder, showMessage_AppJs, showMessage,
        setMessage, modify, ret.
      destruct rev; simpl; rewrite ?Hui; repeat split; assumption.
    + destruct Hcase as ([err Herr] & _). discriminate Herr.
  - destruct (forallb (forward_succeeds model) (items (ui w))).
    + destruct Hcase as (Hres & _). discriminate Hres.
    + rewrite Hui. repeat split; try assumption. eauto.
Qed.

Lemma ge_half_iff (prob : option number) :
  ge prob 0.5 = true ↔ at_least_half prob.
Proof.
  unfold at_least_half. destruct prob as [[q |] |]; simpl.
  - rewrite Qle_bool_iff. split.
    + intros Hq. exists q. split; [reflexivity | lra].
    + intros (q' & Heq & Hq'). injection Heq as <-. lra.
  - split; [discriminate |]. intros (q & Heq & _). discriminate Heq.
  - split; [discriminate |]. intros (q & Heq & _). discriminate Heq.
Qed.

Lemma suggestion_for_cases (model : Tf.LayersModel) (it : Item.t) :
  (suggestion_for model it = REORDER ↔ at_least_half (probability model it)) ∧
  (suggestion_for model it = No_Reorder ↔
     ¬ at_least_half (probability model it)).
Proof.
  unfold suggestion_for. rewrite <- ge_half_iff.
  destruct (ge (probability model it) 0.5); split; split;
    congruence || (intros; exfalso; auto).
Qed.

(** C7.  On a component that holds a model whose forward pass succeeds on
    every record, the prediction handler returns and gives each record the
    decision [REORDER] exactly when the probability the classifier puts out
    for it is at least 0.5 and [No Reorder] exactly when it is not; the
    count it reports is the number of records whose decision is [REORDER]. *)
Theorem decision_threshold (rev : Revision) (model : Tf.LayersModel)
  (w : World) :
  tfModel (ui w) = Some model →
  forallb (forward_succeeds model) (items (ui w)) = true →
  let r := handlePredict rev w in
  fst r = Normal tt ∧
  Forall2 (λ it it',
      (Item.reorderPrediction it' = REORDER ↔
         at_least_half (probability model it)) ∧
      (Item.reorderPrediction it' = No_Reorder ↔
         ¬ at_least_half (probability model it)))
    (items (ui w)) (items (ui (snd r))) ∧
  totalReorder (ui (snd r)) = flagged (items (ui (snd r))).
Proof.
  intros Hsome Hall r. subst r.
  pose proof (handlePredict_spec rev model w Hsome) as Hspec.
  cbv zeta in Hspec. rewrite Hall in Hspec.
  destruct Hspec as (_ & _ & _ & _ & _ & _ & _ & Hres & Hitems & Htotal).
  split; [exact Hres |].
  rewrite Hitems, Htotal. split; [| reflexivity].
  clear. induction (items (ui w)) as [| it rest IH]; simpl; constructor.
  - unfold predicted. simpl. apply suggestion_for_cases.
  - exact IH.
Qed.

Lemma decision_threshold_witness :
  let w := trained_world AppJs sample_network in
  let r := handlePredict AppJs w in
  tfModel (ui w) = Some (model_of sample_network) ∧
  forallb (forward_succeeds (model_of sample_network)) (items (ui w)) = true ∧
  fst r = Normal tt ∧
  Forall2 (λ it it',
      (Item.reorderPrediction it' = REORDER ↔
         at_least_half (probability (model_of sample_network) it)) ∧
      (Item.reorderPrediction it' = No_Reorder ↔
         ¬ at_least_half (probability (model_of sample_network) it)))
    (items (ui w)) (items (ui (snd r))) ∧
  totalReorder (ui (snd r)) = flagged (items (ui (snd r))).
Proof.
  assert (H1 : tfModel (ui (trained_world AppJs sample_network)) =
               Some (model_of sample_network)) by reflexivity.
  assert (H2 : forallb (forward_succeeds (model_of sample_network))
                 (items (ui (trained_world AppJs sample_network))) = true)
    by (vm_compute; reflexivity).
  split; [exact H1 |]. split; [exact H2 |].
  exact (decision_threshold AppJs (model_of sample_network)
           (trained_world AppJs sample_network) H1 H2).
Defined.

(** The sample run: the backpack (inventory 280) is not flagged, the
    T-shirt (inventory 66) is, and the count is one. *)
Example sample_prediction_run :
  let r := handlePredict AppJs (trained_world AppJs sample_network) in
  map Item.currentInventory (items (ui (snd r))) = [280; 66] ∧
  map Item.reorderPrediction (items (ui (snd r))) = [No_Reorder; REORDER] ∧
  totalReorder (ui (snd r)) = 1%nat.
Proof. vm_compute. repeat split; reflexivity. Qed.

(** C10.  On a component that holds a model, whatever the records, the
    records the prediction handler leaves behind are as many as before and
    each has the [id], [name], [currentInventory], [averageSalesPerWeek],
    [daysToReplenish] and [mlFeatures] of the record in its place; and the
    handler returns whenever every forward pass succeeds. *)
Theorem prediction_frame (rev : Revision) (model : Tf.LayersModel)
  (w : World) :
  tfModel (ui w) = Some model →
  let r := handlePredict rev w in
  Forall2 same_but_prediction (items (ui w)) (items (ui (snd r))) ∧
  (forallb (forward_succeeds model) (items (ui w)) = true →
   fst r = Normal tt).
Proof.
  intros Hsome r. subst r.
  pose proof (handlePredict_spec rev model w Hsome) as Hspec.
  cbv zeta in Hspec.
  destruct Hspec as (_ & _ & _ & _ & _ & _ & _ & Hcase).
  destruct (forallb (forward_succeeds model) (items (ui w))).
  - destruct Hcase as (Hres & Hitems & _). split; [| intros _; exact Hres].
    rewrite Hitems. clear.
    induction (items (ui w)) as [| it rest IH]; simpl; constructor.
    + unfold same_but_prediction, predicted. simpl. repeat split.
    + exact IH.
  - destruct Hcase as (_ & Hui). split; [| discriminate].
    rewrite Hui. clear.
    induction (items (ui w)) as [| it rest IH]; constructor.
    + unfold same_but_prediction. repeat split.
    + exact IH.
Qed.

Lemma prediction_frame_witness :
  let w := trained_world InventoryDashboardJsx sample_network in
  let r := handlePredict InventoryDashboardJsx w in
  tfModel (ui w) = Some (model_of sample_network) ∧
  Forall2 same_but_prediction (items (ui w)) (items (ui (snd r))) ∧
  (forallb (forward_succeeds (model_of sample_network)) (items (ui w)) = true →
   fst r = Normal tt).
Proof.
  assert (H1 : tfModel (ui (trained_world InventoryDashboardJsx
                                sample_network)) =
               Some (model_of sample_network)) by reflexivity.
  split; [exact H1 |].
  exact (prediction_frame InventoryDashboardJsx (model_of sample_network)
           (trained_world InventoryDashboardJsx sample_network) H1).
Defined.

(** C8, as amended.  On a component that holds no model the prediction
    handler makes no prediction and throws nothing: it tells the user to
    train the model first (a warning banner in [App.js], an alert in
    [InventoryDashboard.jsx]) and returns normally; the classifier is still
    untrained, the records, the count and the engine are untouched and no
    forward pass was asked for. *)
Theorem predict_on_untrained (rev : Revision) (w : World) :
  classifierState w = Untrained →
  let r := handlePredict rev w in
  fst r = Normal tt ∧
  untrained_warning rev w (snd r) ∧
  classifierState (snd r) = Untrained ∧
  tfModel (ui (snd r)) = tfModel (ui w) ∧
  isModelReady (ui (snd r)) = isModelReady (ui w) ∧
  items (ui (snd r)) = items (ui w) ∧
  totalReorder (ui (snd r)) = totalReorder (ui w) ∧
  tf (snd r) = tf w.
Proof.
  intros Hstate r. subst r. unfold classifierState in Hstate.
  destruct (tfModel (ui w)) as [model |] eqn:Hmodel; [discriminate |].
  rewrite (handlePredict_untrained rev w Hmodel).
  unfold untrained_warning, classifierState.
  destruct rev; simpl; rewrite ?Hmodel; repeat split.
Qed.

Lemma predict_on_untrained_witness :
  let w := mounted_world AppJs in
  let r := handlePredict AppJs w in
  classifierState w = Untrained ∧
  fst r = Normal tt ∧
  untrained_warning AppJs w (snd r) ∧
  classifierState (snd r) = Untrained ∧
  tfModel (ui (snd r)) = tfModel (ui w) ∧
  isModelReady (ui (snd r)) = isModelReady (ui w) ∧
  items (ui (snd r)) = items (ui w) ∧
  totalReorder (ui (snd r)) = totalReorder (ui w) ∧
  tf (snd r) = tf w.
Proof.
  assert (H : classifierState (mounted_world AppJs) = Untrained)
    by reflexivity.
  split; [exact H |].
  exact (predict_on_untrained AppJs (mounted_world AppJs) H).
Defined.

(** C8 as stated fails: on the mounted, untrained sample component the
    handler does not end in an error.  It completes normally, exactly as it
    does after a successful pass on a trained component, so its caller is
    handed no error; the only signal is the banner, of type warning. *)
Lemma predict_on_untrained_counterexample :
  let w := mounted_world AppJs in
  classifierState w = Untrained ∧
  fst (handlePredict AppJs w) = Normal tt ∧
  ¬ (∃ err, fst (handlePredict AppJs w) = Throw err) ∧
  fst (handlePredict AppJs (trained_world AppJs sample_network)) = Normal tt ∧
  message (ui (snd (handlePredict AppJs w))) =
    Some {| text := "Please train the model first!"; type := warning |}.
Proof.
  split; [reflexivity |]. split; [reflexivity |].
  split; [intros [err Herr]; discriminate Herr |].
  split; vm_compute; reflexivity.
Qed.

(** C4, as amended.  On a component that holds a model whose forward pass
    succeeds on every record, the prediction handler returns after one
    forward pass per record, and the tensors alive in a well-formed engine
    afterwards are exactly those alive before: every input and output tensor
    made for the pass has been disposed of, and the count of live tensors is
    what it was. *)
Theorem predict_buffers_released (rev : Revision) (model : Tf.LayersModel)
  (w : World) :
  Tf.engine_wf (tf w) →
  tfModel (ui w) = Some model →
  forallb (forward_succeeds model) (items (ui w)) = true →
  let r := handlePredict rev w in
  fst r = Normal tt ∧
  Tf.calls (tf (snd r)) = Tf.calls (tf w) ++ map predict_call (items (ui w)) ∧
  Tf.registry (tf (snd r)) = Tf.registry (tf w) ∧
  Tf.numTensors (tf (snd r)) = Tf.numTensors (tf w).
Proof.
  intros Hwf Hsome Hall r. subst r.
  pose proof (handlePredict_spec rev model w Hsome) as Hspec.
  pose proof (predictItems_spec model (items (ui w)) 0%nat w) as Hloop.
  cbv zeta in Hspec, Hloop. rewrite Hall in Hspec, Hloop.
  destruct Hspec as (Htf & _ & _ & _ & _ & _ & _ & Hres & _).
  destruct Hloop as (_ & _ & _ & _ & Hcalls & Hreg).
  unfold Tf.numTensors. rewrite Htf, Hcalls, (Hreg Hwf).
  repeat split. exact Hres.
Qed.

Lemma trained_world_registry (rev : Revision) (net : Tf.Network) :
  Tf.registry (tf (trained_world rev net)) = ∅.
Proof. destruct rev; vm_compute; reflexivity. Qed.

Lemma trained_world_wf (rev : Revision) (net : Tf.Network) :
  Tf.engine_wf (tf (trained_world rev net)).
Proof.
  intros i _. rewrite trained_world_registry. apply lookup_empty.
Qed.

Lemma predict_buffers_released_witness :
  let w := trained_world AppJs sample_network in
  let r := handlePredict AppJs w in
  Tf.engine_wf (tf w) ∧
  tfModel (ui w) = Some (model_of sample_network) ∧
  forallb (forward_succeeds (model_of sample_network)) (items (ui w)) = true ∧
  fst r = Normal tt ∧
  Tf.calls (tf (snd r)) = Tf.calls (tf w) ++ map predict_call (items (ui w)) ∧
  Tf.registry (tf (snd r)) = Tf.registry (tf w) ∧
  Tf.numTensors (tf (snd r)) = Tf.numTensors (tf w).
Proof.
  assert (H1 : tfModel (ui (trained_world AppJs sample_network)) =
               Some (model_of sample_network)) by reflexivity.
  assert (H2 : forallb (forward_succeeds (model_of sample_network))
                 (items (ui (trained_world AppJs sample_network))) = true)
    by (vm_compute; reflexivity).
  split; [exact (trained_world_wf AppJs sample_network) |].
  split; [exact H1 |]. split; [exact H2 |].
  exact (predict_buffers_released AppJs (model_of sample_network)
           (trained_world AppJs sample_network)
           (trained_world_wf AppJs sample_network) H1 H2).
Defined.

(** C4 as stated fails when the forward pass raises.  After mounting on the
    sample products and training, no tensor is alive; with a model whose
    forward pass throws, the handler throws on the first record and the input
    tensor made for it, [[280, 56, 4]], is still alive. *)
Lemma predict_buffers_counterexample :
  let w := trained_world AppJs failing_network in
  let r := handlePredict AppJs w in
  Tf.engine_wf (tf w) ∧
  tfModel (ui w) = Some (model_of failing_network) ∧
  Tf.numTensors (tf w) = 0%nat ∧
  fst r = Throw "the backend was lost" ∧
  Tf.numTensors (tf (snd r)) = 1%nat ∧
  Tf.registry (tf (snd r)) !! 2%nat = Some [row [280; 56; 4]].
Proof.
  split; [exact (trained_world_wf AppJs failing_network) |].
  vm_compute. repeat split; reflexivity.
Qed.

(** ** Training *)

Lemma buildAndTrainModel_run (rev : Revision)
  (outcome : Completion Tf.Network) (w : World) :
  let t := Tf.nextTensorId (tf w) in
  let made :=
    <[S t := trainingLabels_data rev]>
      (<[t := trainingFeatures_data rev]> (Tf.registry (tf w))) in
  let log :=
    Tf.calls (tf w) ++
      [Tf.CallFit (trainingFeatures_data rev) (trainingLabels_data rev)
         {| Tf.epochs := 200; Tf.shuffle := true |}] in
  buildAndTrainModel rev outcome w =
    match outcome with
    | Normal net =>
        (Normal (model_of net),
         set_tf {| Tf.nextTensorId := S (S t);
                   Tf.registry := delete (S t) (delete t made);
                   Tf.calls := log |} w)
    | Throw err =>
        (Throw err,
         set_tf {| Tf.nextTensorId := S (S t);
                   Tf.registry := made;
                   Tf.calls := log |} w)
    end.
Proof.
  intros t made log. subst t made log.
  unfold buildAndTrainModel, tf_, zoom, bind, ret.
  unfold Tf.tensor2d, Tf.fit, Tf.read, Tf.record_call, Tf.dispose, modify,
    bind, ret, throw.
  simpl.
  rewrite lookup_insert_ne by lia. rewrite lookup_insert_eq. simpl.
  rewrite lookup_insert_eq. simpl.
  destruct outcome as [net | err]; reflexivity.
Qed.

(** Training touches the engine only, and leaves it well formed. *)
Lemma buildAndTrainModel_engine (rev : Revision)
  (outcome : Completion Tf.Network) (w : World) :
  let r := buildAndTrainModel rev outcome w in
  same_outside_engine w (snd r) ∧
  (Tf.engine_wf (tf w) → Tf.engine_wf (tf (snd r))) ∧
  Tf.calls (tf (snd r)) =
    Tf.calls (tf w) ++
      [Tf.CallFit (trainingFeatures_data rev) (trainingLabels_data rev)
         {| Tf.epochs := 200; Tf.shuffle := true |}] ∧
  (Tf.engine_wf (tf w) →
   match outcome with
   | Normal _ => Tf.registry (tf (snd r)) = Tf.registry (tf w)
   | Throw _ => Tf.numTensors (tf (snd r)) = S (S (Tf.numTensors (tf w)))
   end).
Proof.
  intros r. subst r. rewrite buildAndTrainModel_run. cbv zeta.
  unfold same_outside_engine.
  destruct outcome as [net | err]; cbn [fst snd]; simpl.
  - repeat split.
    + intros Hwf.
      pose proof (engine_after_item w (trainingFeatures_data rev)
                    (trainingLabels_data rev) []) as Hitem.
      cbv zeta in Hitem. destruct (Hitem Hwf) as [Hwf1 Hreg].
      simpl in Hreg. rewrite Hreg.
      apply (engine_wf_advance (tf w)); [exact Hwf | lia | reflexivity].
    + intros Hwf. apply registry_released; apply Hwf; lia.
  - repeat split.
    + intros Hwf.
      apply (engine_wf_advance (tf w)); [exact Hwf | lia |].
      intros i Hi. rewrite !lookup_insert_ne by lia. reflexivity.
    + intros Hwf. unfold Tf.numTensors. simpl.
      rewrite map_size_insert_None.
      * rewrite map_size_insert_None; [reflexivity | apply Hwf; lia].
      * rewrite lookup_insert_ne by lia. apply Hwf. lia.
Qed.

(** The training handler always returns.  The engine is the one training
    leaves.  On success the model is stored and the component says it is
    ready; on failure the stored model is the one there was, the component
    says it is not ready, and the failure is reported. *)
Lemma handleTrainModel_spec (rev : Revision)
  (outcome : Completion Tf.Network) (w : World) :
  let r := handleTrainModel rev outcome w in
  fst r = Normal tt ∧
  tf (snd r) = tf (snd (buildAndTrainModel rev outcome w)) ∧
  items (ui (snd r)) = items (ui w) ∧
  loading (ui (snd r)) = loading (ui w) ∧
  totalReorder (ui (snd r)) = totalReorder (ui w) ∧
  random (snd r) = random w ∧
  match outcome with
  | Normal net =>
      tfModel (ui (snd r)) = Some (model_of net) ∧
      isModelReady (ui (snd r)) = true
  | Throw err =>
      tfModel (ui (snd r)) = tfModel (ui w) ∧
      isModelReady (ui (snd r)) = false ∧
      training_error_surfaced rev w (snd r)
  end.
Proof.
  intros r. subst r.
  remember (handleTrainModel rev outcome w) as r eqn:Hr.
  unfold handleTrainModel, try_catch, bind at 1 2 in Hr.
  unfold setModelReady at 1, showMessage_AppJs, modify in Hr.
  unfold training_error_surfaced.
  rewrite buildAndTrainModel_run. cbv zeta.
  destruct rev; simpl in Hr; unfold bind at 1 in Hr;
    rewrite buildAndTrainModel_run in Hr; cbv zeta in Hr;
    destruct outcome as [net | err]; simpl in Hr; subst r; simpl;
    repeat split.
Qed.

(** ** Mounting *)

(** The synthesizer takes draws and changes nothing else; every record has
    its three columns as feature vector. *)
Lemma createAugmentedProducts_features
  (rawProducts : list RawProduct.t) (w : World) :
  returns (createAugmentedProducts rawProducts) w (λ items w',
    ui w' = ui w ∧ tf w' = tf w ∧
    length items = length rawProducts ∧
    Forall features_ok items).
Proof.
  eapply returns_weaken.
  - apply (createAugmentedProducts_returns
             (λ w', ui w' = ui w ∧ tf w' = tf w)
             (λ _ it, features_ok it)); [| split; reflexivity].
    intros p w0 [Hui Htf].
    eapply returns_weaken; [apply augment_returns |].
    intros it w1 (_ & _ & _ & _ & _ & _ & Hfeat & Hui1 & Htf1 & _).
    split; [split; congruence | exact Hfeat].
  - intros items w' [[Hui Htf] Hall].
    split; [exact Hui |]. split; [exact Htf |]. split.
    + symmetry. exact (Forall2_length _ _ _ Hall).
    + clear -Hall. induction Hall; constructor; assumption.
Qed.

(** The mount effect always returns, with [loading] off; it stores the
    records the synthesizer made of the reply, or keeps the records when
    the fetch failed; the engine and the classifier are not touched. *)
Lemma loadProducts_spec (rev : Revision)
  (reply : Completion (list RawProduct.t)) (w : World) :
  let r := loadProducts rev reply w in
  fst r = Normal tt ∧
  tf (snd r) = tf w ∧
  loading (ui (snd r)) = false ∧
  isModelReady (ui (snd r)) = isModelReady (ui w) ∧
  tfModel (ui (snd r)) = tfModel (ui w) ∧
  totalReorder (ui (snd r)) = totalReorder (ui w) ∧
  match reply with
  | Normal rawProducts =>
      ∃ w1, createAugmentedProducts rawProducts w
              = (Normal (items (ui (snd r))), w1)
  | Throw _ => items (ui (snd r)) = items (ui w)
  end.
Proof.
  intros r. subst r.
  remember (loadProducts rev reply w) as r eqn:Hr.
  unfold loadProducts, try_finally, try_catch in Hr.
  destruct reply as [rawProducts | err].
  - destruct (createAugmentedProducts_features rawProducts w)
      as (augmented & w1 & Hrun & Hui & Htf & _).
    unfold bind at 1, ret in Hr. unfold bind at 1 in Hr.
    rewrite Hrun in Hr. simpl in Hr. subst r. simpl.
    rewrite Hui, Htf. repeat split. exists w1. exact Hrun.
  - unfold bind at 1, throw in Hr.
    destruct rev; simpl in Hr; subst r; simpl; repeat split.
Qed.

(** ** Invariants of the component *)

Lemma features_ok_predicted (model : Tf.LayersModel) (items : list Item.t) :
  Forall features_ok items → Forall features_ok (map (predicted model) items).
Proof.
  intros Hall. induction Hall as [| it rest Hit _ IH]; simpl; constructor.
  - unfold features_ok, predicted in *. simpl. exact Hit.
  - exact IH.
Qed.

Lemma predict_calls_ok (items : list Item.t) :
  Forall features_ok items →
  Forall predict_call_ok (map predict_call items).
Proof.
  intros Hall. induction Hall as [| it rest Hit _ IH]; cbn [map]; constructor.
  - unfold features_ok in Hit. unfold predict_call, predict_call_ok.
    rewrite Hit. eauto.
  - exact IH.
Qed.

Lemma Forall_take_of {A} (P : A → Prop) (k : nat) (l : list A) :
  Forall P l → Forall P (take k l).
Proof.
  intros Hall. revert k.
  induction Hall as [| a rest Ha _ IH]; intros [| k]; simpl;
    constructor; auto.
Qed.

Lemma initial_invariant (draws : nat → Q) :
  world_invariant (initial_world draws).
Proof.
  unfold world_invariant, ready_iff_model. simpl.
  split; [constructor |]. split; [| split].
  - split; [discriminate |]. intros [model Hmodel]. discriminate Hmodel.
  - apply engine_wf_fresh.
  - constructor.
Qed.

Lemma step_invariant (rev : Revision) (e : Event) (w : World) :
  world_invariant w → enabled e w = true →
  world_invariant (snd (handle rev e w)).
Proof.
  intros (Hfeat & Hready & Hwf & Hcalls) Hen.
  unfold world_invariant, ready_iff_model in *.
  destruct e as [reply | outcome | |]; simpl in Hen; cbn [handle].
  - (* mount *)
    pose proof (loadProducts_spec rev reply w) as Hspec. cbv zeta in Hspec.
    destruct Hspec as (_ & Htf & _ & Hrdy & Hmodel & _ & Hitems).
    rewrite Htf, Hrdy, Hmodel. repeat split; try tauto.
    destruct reply as [rawProducts | err].
    + destruct Hitems as [w1 Hrun].
      destruct (createAugmentedProducts_features rawProducts w)
        as (augmented & w1' & Hrun' & _ & _ & _ & Hall).
      rewrite Hrun in Hrun'. injection Hrun' as -> _. exact Hall.
    + rewrite Hitems. exact Hfeat.
  - (* train *)
    apply andb_true_iff in Hen as [_ Hnot]. apply negb_true_iff in Hnot.
    pose proof (handleTrainModel_spec rev outcome w) as Hspec.
    pose proof (buildAndTrainModel_engine rev outcome w) as Hbuild.
    cbv zeta in Hspec, Hbuild.
    destruct Hspec as (_ & Htf & Hitems & _ & _ & _ & Hcase).
    destruct Hbuild as (_ & Hwf' & Hlog & _).
    rewrite Htf, Hitems, Hlog.
    split; [exact Hfeat |]. split; [| split; [exact (Hwf' Hwf) |]].
    + destruct outcome as [net | err].
      * destruct Hcase as [-> ->]. split; eauto.
      * destruct Hcase as (-> & -> & _). rewrite <- Hready, Hnot. tauto.
    + apply Forall_app. split; [exact Hcalls |]. repeat constructor.
  - (* predict *)
    apply andb_true_iff in Hen as [_ Hyes].
    destruct (proj1 Hready Hyes) as [model Hmodel].
    pose proof (handlePredict_spec rev model w Hmodel) as Hspec.
    pose proof (predictItems_spec model (items (ui w)) 0%nat w) as Hloop.
    cbv zeta in Hspec, Hloop.
    destruct Hspec as (Htf & _ & _ & _ & _ & Hrdy & Hmod & Hcase).
    destruct Hloop as (_ & Hwf' & [k Hk] & _).
    rewrite Htf, Hrdy, Hmod, Hk.
    split; [| split; [exact Hready | split; [exact (Hwf' Hwf) |]]].
    + destruct (forallb (forward_succeeds model) (items (ui w))).
      * destruct Hcase as (_ & -> & _).
        apply features_ok_predicted, Hfeat.
      * destruct Hcase as (_ & ->). exact Hfeat.
    + apply Forall_app. split; [exact Hcalls |].
      apply predict_calls_ok, Forall_take_of, Hfeat.
  - (* the banner times out *)
    simpl. repeat split; tauto.
Qed.

Lemma reachable_invariant (rev : Revision) (draws : nat → Q) (w : World) :
  reachable rev draws w → world_invariant w.
Proof.
  intros Hreach. induction Hreach as [| w e _ IH Hen].
  - apply initial_invariant.
  - apply step_invariant; assumption.
Qed.

Lemma mounted_world_reachable (rev : Revision) :
  reachable rev sample_draws (mounted_world rev).
Proof.
  unfold mounted_world. apply reachable_step.
  - apply reachable_init.
  - reflexivity.
Qed.

Lemma trained_world_reachable (rev : Revision) (net : Tf.Network) :
  reachable rev sample_draws (trained_world rev net).
Proof.
  unfold trained_world. apply reachable_step.
  - apply mounted_world_reachable.
  - destruct rev; reflexivity.
Qed.

Lemma predict_call_columns (items : list Item.t) :
  Forall features_ok items →
  map predict_call items =
    map (λ it, Tf.CallPredict
                 [row [Item.currentInventory it;
                       Item.averageSalesPerWeek it;
                       Item.daysToReplenish it]]) items.
Proof.
  intros Hall. induction Hall as [| it rest Hit _ IH]; cbn [map].
  - reflexivity.
  - rewrite IH. unfold predict_call at 1.
    unfold features_ok in Hit. rewrite Hit. reflexivity.
Qed.

(** C1.  In every state the component can reach: the synthesizer, run on
    any product list, returns one record per product and the [mlFeatures] of
    each is the list [currentInventory, averageSalesPerWeek,
    daysToReplenish], in that order; the same holds of every record the
    component holds; and every forward pass the prediction handler asks for
    is on a one-row tensor holding those three columns of a record it holds,
    in that order, the records being taken from the first on. *)
Theorem features_vector_order (rev : Revision) (draws : nat → Q) (w : World) :
  reachable rev draws w →
  (∀ rawProducts,
     returns (createAugmentedProducts rawProducts) w (λ items _,
       length items = length rawProducts ∧ Forall features_ok items)) ∧
  Forall features_ok (items (ui w)) ∧
  (∃ k,
     Tf.calls (tf (snd (handlePredict rev w))) =
       Tf.calls (tf w) ++
         map (λ it, Tf.CallPredict
                      [row [Item.currentInventory it;
                            Item.averageSalesPerWeek it;
                            Item.daysToReplenish it]])
           (take k (items (ui w)))).
Proof.
  intros Hreach.
  destruct (reachable_invariant rev draws w Hreach) as (Hfeat & _ & _ & _).
  split; [| split; [exact Hfeat |]].
  - intros rawProducts.
    eapply returns_weaken; [apply createAugmentedProducts_features |].
    intros items w' (_ & _ & Hlen & Hall). split; assumption.
  - destruct (tfModel (ui w)) as [model |] eqn:Hmodel.
    + pose proof (handlePredict_spec rev model w Hmodel) as Hspec.
      pose proof (predictItems_spec model (items (ui w)) 0%nat w) as Hloop.
      cbv zeta in Hspec, Hloop.
      destruct Hspec as (Htf & _). destruct Hloop as (_ & _ & [k Hk] & _).
      exists k. rewrite Htf, Hk. f_equal.
      apply predict_call_columns, Forall_take_of, Hfeat.
    + exists 0%nat. rewrite (handlePredict_untrained rev w Hmodel).
      destruct rev; simpl; rewrite app_nil_r; reflexivity.
Qed.

Lemma features_vector_order_witness :
  let w := trained_world AppJs sample_network in
  reachable AppJs sample_draws w ∧
  (∀ rawProducts,
     returns (createAugmentedProducts rawProducts) w (λ items _,
       length items = length rawProducts ∧ Forall features_ok items)) ∧
  Forall features_ok (items (ui w)) ∧
  (∃ k,
     Tf.calls (tf (snd (handlePredict AppJs w))) =
       Tf.calls (tf w) ++
         map (λ it, Tf.CallPredict
                      [row [Item.currentInventory it;
                            Item.averageSalesPerWeek it;
                            Item.daysToReplenish it]])
           (take k (items (ui w)))).
Proof.
  split; [exact (trained_world_reachable AppJs sample_network) |].
  exact (features_vector_order AppJs sample_draws
           (trained_world AppJs sample_network)
           (trained_world_reachable AppJs sample_network)).
Defined.

(** C2, as amended.  The training handler asks for exactly one fit, on the
    training set hard-coded in the file at hand: the six labelled examples
    (20,50,3)->0, (5,30,5)->1, (15,40,4)->0, (8,60,2)->1, (100,10,1)->0,
    (2,50,6)->1 in [App.js], and the first four of those six in
    [InventoryDashboard.jsx]; the fit is asked for 200 epochs with
    shuffling, so that, whatever orders the library draws, it runs exactly
    200 epochs, each over the full set (every example once), epoch [e] in
    the order drawn anew before it. *)
Theorem training_set_and_epochs (rev : Revision)
  (outcome : Completion Tf.Network) (w : World)
  (drawn : nat → list (list number * list number)
           → list (list number * list number)) :
  (∀ e l, drawn e l ≡ₚ l) →
  let n := training_examples rev in
  let xs := map (λ ex, row (fst ex)) (take n six_examples) in
  let ys := map (λ ex, row [snd ex]) (take n six_examples) in
  let args := {| Tf.epochs := 200; Tf.shuffle := true |} in
  let schedule := fit_schedule args drawn (zip xs ys) in
  Tf.calls (tf (snd (handleTrainModel rev outcome w))) =
    Tf.calls (tf w) ++ [Tf.CallFit xs ys args] ∧
  Tf.calls (tf (snd (buildAndTrainModel rev outcome w))) =
    Tf.calls (tf w) ++ [Tf.CallFit xs ys args] ∧
  length xs = n ∧ length ys = n ∧ length (zip xs ys) = n ∧
  length schedule = 200%nat ∧
  Forall (λ epoch, epoch ≡ₚ zip xs ys) schedule ∧
  (∀ e, (e < 200)%nat → schedule !! e = Some (drawn e (zip xs ys))).
Proof.
  intros Hdrawn n xs ys args schedule.
  pose proof (handleTrainModel_spec rev outcome w) as Hspec.
  pose proof (buildAndTrainModel_engine rev outcome w) as Hbuild.
  cbv zeta in Hspec, Hbuild.
  destruct Hspec as (_ & Htf & _). destruct Hbuild as (_ & _ & Hlog & _).
  assert (Hxs : trainingFeatures_data rev = xs)
    by (subst xs n; destruct rev; reflexivity).
  assert (Hys : trainingLabels_data rev = ys)
    by (subst ys n; destruct rev; reflexivity).
  rewrite Htf, Hlog, Hxs, Hys.
  split; [reflexivity |]. split; [reflexivity |].
  split; [subst xs n; destruct rev; reflexivity |].
  split; [subst ys n; destruct rev; reflexivity |].
  split; [subst xs ys n; destruct rev; reflexivity |].
  subst schedule. unfold fit_schedule. cbn [Tf.shuffle Tf.epochs args].
  split; [rewrite length_map, length_seq; reflexivity |].
  split.
  - apply Forall_forall. intros epoch Hin.
    apply list_elem_of_fmap in Hin as (e & -> & _). apply Hdrawn.
  - intros e He. rewrite list_lookup_fmap, lookup_seq_lt by exact He.
    reflexivity.
Qed.

Lemma training_set_and_epochs_witness :
  let drawn := λ (e : nat) (l : list (list number * list number)),
                 if Nat.even e then l else reverse l in
  let xs := map (λ ex, row (fst ex)) (take 6 six_examples) in
  let ys := map (λ ex, row [snd ex]) (take 6 six_examples) in
  let args := {| Tf.epochs := 200; Tf.shuffle := true |} in
  let schedule := fit_schedule args drawn (zip xs ys) in
  let w := mounted_world AppJs in
  (∀ e l, drawn e l ≡ₚ l) ∧
  Tf.calls (tf (snd (handleTrainModel AppJs (Normal sample_network) w))) =
    Tf.calls (tf w) ++ [Tf.CallFit xs ys args] ∧
  Tf.calls (tf (snd (buildAndTrainModel AppJs (Normal sample_network) w))) =
    Tf.calls (tf w) ++ [Tf.CallFit xs ys args] ∧
  length xs = 6%nat ∧ length ys = 6%nat ∧ length (zip xs ys) = 6%nat ∧
  length schedule = 200%nat ∧
  Forall (λ epoch, epoch ≡ₚ zip xs ys) schedule ∧
  (∀ e, (e < 200)%nat → schedule !! e = Some (drawn e (zip xs ys))).
Proof.
  assert (H : ∀ (e : nat) (l : list (list number * list number)),
                (if Nat.even e then l else reverse l) ≡ₚ l).
  { intros e l. destruct (Nat.even e); [reflexivity |].
    apply reverse_Permutation. }
  split; [exact H |].
  exact (training_set_and_epochs AppJs (Normal sample_network)
           (mounted_world AppJs)
           (λ e l, if Nat.even e then l else reverse l) H).
Defined.

(** C2 as stated fails on [InventoryDashboard.jsx]: the fit it asks for is
    on four examples, not six. *)
Lemma training_set_counterexample :
  let w := mounted_world InventoryDashboardJsx in
  let r := handleTrainModel InventoryDashboardJsx (Normal sample_network) w in
  ∃ xs ys args,
    Tf.calls (tf (snd r)) = [Tf.CallFit xs ys args] ∧
    xs = [row [20; 50; 3]; row [5; 30; 5]; row [15; 40; 4]; row [8; 60; 2]] ∧
    ys = [row [0]; row [1]; row [0]; row [1]] ∧
    length xs = 4%nat ∧
    length xs ≠ 6%nat.
Proof.
  eexists _, _, _. split; [vm_compute; reflexivity |].
  split; [reflexivity |]. split; [reflexivity |].
  split; [reflexivity |]. simpl. discriminate.
Qed.



(** The sample failure: the banner shows the error and nothing is stored. *)
Example sample_training_failure :
  let r := handleTrainModel AppJs (Throw "out of memory") (mounted_world AppJs) in
  fst r = Normal tt ∧
  tfModel (ui (snd r)) = None ∧
  isModelReady (ui (snd r)) = false ∧
  message (ui (snd r)) =
    Some {| text := "Error training model (check console).";
            type := error |} ∧
  console (snd r) = ["Training error:"].
Proof. vm_compute. repeat split; reflexivity. Qed.

(** ** More on the synthesizer *)

Lemma augment_run (p : RawProduct.t) (w : World) :
  augment p w =
    (Normal (synthesize p (random w 0%nat) (random w 1%nat)),
     {| ui := ui w; tf := tf w; random := λ n, random w (S (S n));
        alerts := alerts w; console := console w |}).
Proof. reflexivity. Qed.

(** The synthesizer in closed form: the records are those of
    [synthesize_all] on the draws to come, two draws are used up per
    product and nothing else changes. *)
Lemma createAugmentedProducts_run (rawProducts : list RawProduct.t) :
  ∀ w, ∃ w',
    createAugmentedProducts rawProducts w =
      (Normal (synthesize_all (random w) rawProducts), w') ∧
    ui w' = ui w ∧ tf w' = tf w ∧
    alerts w' = alerts w ∧ console w' = console w ∧
    (∀ n, random w' n = random w (2 * length rawProducts + n)%nat).
Proof.
  unfold createAugmentedProducts.
  induction rawProducts as [| p rest IH]; intros w.
  - exists w. simpl. repeat split.
  - cbn [Array_map synthesize_all]. unfold bind at 1. rewrite augment_run.
    set (w1 := {| ui := ui w; tf := tf w; random := λ n, random w (S (S n));
                  alerts := alerts w; console := console w |}).
    destruct (IH w1) as (w' & Hrun & Hui & Htf & Hal & Hco & Hrand).
    exists w'. unfold bind at 1. rewrite Hrun. simpl.
    repeat split; try assumption.
    intros n. rewrite Hrand. subst w1. simpl. f_equal. lia.
Qed.

Lemma synthesize_all_ids (rawProducts : list RawProduct.t) :
  ∀ draws,
    map Item.id (synthesize_all draws rawProducts)
      = map RawProduct.id rawProducts.
Proof.
  induction rawProducts as [| p rest IH]; intros draws; simpl.
  - reflexivity.
  - rewrite IH. reflexivity.
Qed.

Lemma synthesize_all_pending (rawProducts : list RawProduct.t) :
  ∀ draws, all_pending (synthesize_all draws rawProducts).
Proof.
  unfold all_pending.
  induction rawProducts as [| p rest IH]; intros draws; simpl; constructor.
  - reflexivity.
  - apply IH.
Qed.

(** A property of each product and its record that holds whatever the two
    draws (in a given range) holds along the two lists. *)
Lemma synthesize_all_Forall2 (range : Q → Prop)
  (rel : RawProduct.t → Item.t → Prop) (rawProducts : list RawProduct.t) :
  (∀ p r r', In p rawProducts → range r → range r' →
             rel p (synthesize p r r')) →
  ∀ draws, (∀ n, range (draws n)) →
    Forall2 rel rawProducts (synthesize_all draws rawProducts).
Proof.
  induction rawProducts as [| p rest IH]; intros Hrel draws Hdraws; simpl.
  - constructor.
  - constructor.
    + apply Hrel; [left; reflexivity | apply Hdraws | apply Hdraws].
    + apply IH.
      * intros q r r' Hq. apply Hrel. right. exact Hq.
      * intros n. apply Hdraws.
Qed.

Lemma flagged_all_pending (items : list Item.t) :
  all_pending items → flagged items = 0%nat.
Proof.
  unfold all_pending. intros Hall.
  induction Hall as [| it rest Hit _ IH].
  - reflexivity.
  - rewrite flagged_cons, Hit, IH.
    destruct (decide (Pending = REORDER)) as [Heq |]; [discriminate Heq |].
    reflexivity.
Qed.

(** X1.  Whatever the products and the state, the synthesizer returns one
    record per product, in the order of the products and with their ids,
    every record pending; it takes exactly two draws per product from the
    generator and changes neither the component nor the engine. *)
Theorem synthesizer_shape (rawProducts : list RawProduct.t) (w : World) :
  returns (createAugmentedProducts rawProducts) w (λ items w',
    map Item.id items = map RawProduct.id rawProducts ∧
    all_pending items ∧
    ui w' = ui w ∧ tf w' = tf w ∧
    (∀ n, random w' n = random w (2 * length rawProducts + n)%nat)).
Proof.
  destruct (createAugmentedProducts_run rawProducts w)
    as (w' & Hrun & Hui & Htf & _ & _ & Hrand).
  exists (synthesize_all (random w) rawProducts), w'.
  split; [exact Hrun |].
  split; [apply synthesize_all_ids |].
  split; [apply synthesize_all_pending |].
  repeat split; assumption.
Qed.

Lemma synthesize_same_numbers (p p' : RawProduct.t) (r r' : Q) :
  RawProduct.id p = RawProduct.id p' →
  (RawProduct.price p == RawProduct.price p')%Q →
  Item.id (synthesize p r r') = Item.id (synthesize p' r r') ∧
  Item.currentInventory (synthesize p r r')
    = Item.currentInventory (synthesize p' r r') ∧
  Item.averageSalesPerWeek (synthesize p r r')
    = Item.averageSalesPerWeek (synthesize p' r r') ∧
  Item.daysToReplenish (synthesize p r r')
    = Item.daysToReplenish (synthesize p' r r') ∧
  Item.mlFeatures (synthesize p r r') = Item.mlFeatures (synthesize p' r r').
Proof.
  intros Hid Hprice.
  assert (Hinv : Math_round (RawProduct.price p * 2.5
                             + inject_Z (RawProduct.id p) * 5)
               = Math_round (RawProduct.price p' * 2.5
                             + inject_Z (RawProduct.id p') * 5)).
  { unfold Math_round. apply Qfloor_comp. rewrite Hid, Hprice. reflexivity. }
  unfold synthesize. simpl. rewrite Hinv, Hid. repeat split.
Qed.

(** X2.  Titles do not enter the numbers: two product lists that agree, place
    by place, on ids and prices get, from the same generator, records that
    agree place by place on id, inventory, sales, lead time and feature
    vector, whatever the titles. *)
Theorem titles_do_not_matter (rawProducts rawProducts' : list RawProduct.t)
  (w : World) :
  Forall2 (λ p p', RawProduct.id p = RawProduct.id p' ∧
                   (RawProduct.price p == RawProduct.price p')%Q)
    rawProducts rawProducts' →
  returns (createAugmentedProducts rawProducts) w (λ items _,
    returns (createAugmentedProducts rawProducts') w (λ items' _,
      Forall2 (λ it it',
          Item.id it = Item.id it' ∧
          Item.currentInventory it = Item.currentInventory it' ∧
          Item.averageSalesPerWeek it = Item.averageSalesPerWeek it' ∧
          Item.daysToReplenish it = Item.daysToReplenish it' ∧
          Item.mlFeatures it = Item.mlFeatures it')
        items items')).
Proof.
  intros Hsame.
  destruct (createAugmentedProducts_run rawProducts w) as (w1 & Hrun & _).
  destruct (createAugmentedProducts_run rawProducts' w) as (w2 & Hrun' & _).
  eexists _, _. split; [exact Hrun |].
  eexists _, _. split; [exact Hrun' |].
  generalize (random w). clear -Hsame.
  induction Hsame as [| p p' rest rest' [Hid Hprice] _ IH]; intros draws;
    simpl; constructor.
  - apply synthesize_same_numbers; assumption.
  - apply IH.
Qed.

Lemma titles_do_not_matter_witness :
  let long := RawProduct.mk 7
    (lit "A title that is certainly longer than forty characters") 12.5 in
  let short := RawProduct.mk 7 (lit "Short") (25 # 2) in
  let w := initial_world sample_draws in
  Forall2 (λ p p', RawProduct.id p = RawProduct.id p' ∧
                   (RawProduct.price p == RawProduct.price p')%Q)
    [long] [short] ∧
  returns (createAugmentedProducts [long]) w (λ items _,
    returns (createAugmentedProducts [short]) w (λ items' _,
      Forall2 (λ it it',
          Item.id it = Item.id it' ∧
          Item.currentInventory it = Item.currentInventory it' ∧
          Item.averageSalesPerWeek it = Item.averageSalesPerWeek it' ∧
          Item.daysToReplenish it = Item.daysToReplenish it' ∧
          Item.mlFeatures it = Item.mlFeatures it')
        items items')).
Proof.
  assert (H : Forall2 (λ p p', RawProduct.id p = RawProduct.id p' ∧
                   (RawProduct.price p == RawProduct.price p')%Q)
    [RawProduct.mk 7
       (lit "A title that is certainly longer than forty characters") 12.5]
    [RawProduct.mk 7 (lit "Short") (25 # 2)]).
  { constructor; [| constructor]. split; reflexivity. }
  split; [exact H |].
  exact (titles_do_not_matter _ _ (initial_world sample_draws) H).
Defined.

Lemma synthesize_sane (p : RawProduct.t) (r r' : Q) :
  (0 <= RawProduct.price p)%Q → 0 ≤ RawProduct.id p →
  (0 <= r)%Q → (r < 1)%Q →
  0 ≤ Item.currentInventory (synthesize p r r') ∧
  0 ≤ Item.averageSalesPerWeek (synthesize p r r')
    ≤ Item.currentInventory (synthesize p r r').
Proof.
  intros Hprice Hid Hr0 Hr1. unfold synthesize. simpl.
  set (baseInv := Math_round (RawProduct.price p * 2.5
                              + inject_Z (RawProduct.id p) * 5)).
  assert (Hbase : 0 ≤ baseInv).
  { subst baseInv. rewrite <- (Math_round_integer 0) at 1.
    apply Math_round_mono.
    assert (Hq : (0 <= inject_Z (RawProduct.id p))%Q)
      by (change 0%Q with (inject_Z 0); rewrite <- Zle_Qle; exact Hid).
    change (inject_Z 0) with 0%Q. lra. }
  assert (Hx : (0 <= inject_Z baseInv)%Q)
    by (change 0%Q with (inject_Z 0); rewrite <- Zle_Qle; exact Hbase).
  split; [exact Hbase |]. split.
  - rewrite <- (Math_round_integer 0) at 1. apply Math_round_mono.
    change (inject_Z 0) with 0%Q. nra.
  - rewrite <- (Math_round_integer baseInv) at 2. apply Math_round_mono. nra.
Qed.

(** X3.  On a catalog whose prices and ids are not negative, with draws in
    [0,1), every record has a non-negative inventory and weekly sales between
    zero and that inventory. *)
Theorem catalog_numbers_sane (rawProducts : list RawProduct.t) (w : World) :
  uniform_draws w →
  Forall (λ p, (0 <= RawProduct.price p)%Q ∧ 0 ≤ RawProduct.id p)
    rawProducts →
  returns (createAugmentedProducts rawProducts) w (λ items _,
    length items = length rawProducts ∧
    Forall (λ it,
        0 ≤ Item.currentInventory it ∧
        0 ≤ Item.averageSalesPerWeek it ≤ Item.currentInventory it) items).
Proof.
  intros Hdraws Hcatalog.
  destruct (createAugmentedProducts_run rawProducts w) as (w1 & Hrun & _).
  eexists _, _. split; [exact Hrun |].
  assert (Hall : Forall2 (λ _ it,
              0 ≤ Item.currentInventory it ∧
              0 ≤ Item.averageSalesPerWeek it ≤ Item.currentInventory it)
            rawProducts (synthesize_all (random w) rawProducts)).
  { apply (synthesize_all_Forall2 (λ r, (0 <= r)%Q ∧ (r < 1)%Q)).
    - intros p r r' Hin [Hr0 Hr1] _.
      rewrite Forall_forall in Hcatalog.
      destruct (Hcatalog p) as [Hprice Hid]; [apply list_elem_of_In, Hin |].
      apply synthesize_sane; assumption.
    - exact Hdraws. }
  split.
  - symmetry. exact (Forall2_length _ _ _ Hall).
  - clear -Hall. induction Hall; constructor; assumption.
Qed.

Lemma catalog_numbers_sane_witness :
  let w := initial_world sample_draws in
  uniform_draws w ∧
  Forall (λ p, (0 <= RawProduct.price p)%Q ∧ 0 ≤ RawProduct.id p)
    sample_products ∧
  returns (createAugmentedProducts sample_products) w (λ items _,
    length items = length sample_products ∧
    Forall (λ it,
        0 ≤ Item.currentInventory it ∧
        0 ≤ Item.averageSalesPerWeek it ≤ Item.currentInventory it) items).
Proof.
  assert (H1 : uniform_draws (initial_world sample_draws)).
  { intros n. split; vm_compute; congruence. }
  assert (H2 : Forall (λ p, (0 <= RawProduct.price p)%Q ∧
                            0 ≤ RawProduct.id p) sample_products).
  { repeat constructor; vm_compute; congruence. }
  split; [exact H1 |]. split; [exact H2 |].
  exact (catalog_numbers_sane sample_products _ H1 H2).
Defined.

(** X4.  The inventory grows with price and id: a product that is neither
    cheaper nor of smaller id than another gets an inventory at least as
    large, whatever the draws. *)
Theorem inventory_monotone (p p' : RawProduct.t) (w w' : World) :
  (RawProduct.price p <= RawProduct.price p')%Q →
  RawProduct.id p ≤ RawProduct.id p' →
  returns (augment p) w (λ it _,
    returns (augment p') w' (λ it' _,
      Item.currentInventory it ≤ Item.currentInventory it')).
Proof.
  intros Hprice Hid.
  eexists _, _. split; [apply augment_run |].
  eexists _, _. split; [apply augment_run |].
  unfold synthesize. simpl. apply Math_round_mono.
  assert (Hq : (inject_Z (RawProduct.id p) <= inject_Z (RawProduct.id p'))%Q)
    by (rewrite <- Zle_Qle; exact Hid).
  lra.
Qed.

Lemma inventory_monotone_witness :
  let p := RawProduct.mk 2 (lit "Mens Casual Premium Slim Fit T-Shirts") 22.3 in
  let p' := RawProduct.mk 3 (lit "Mens Cotton Jacket") 55.99 in
  let w := initial_world sample_draws in
  (RawProduct.price p <= RawProduct.price p')%Q ∧
  RawProduct.id p ≤ RawProduct.id p' ∧
  returns (augment p) w (λ it _,
    returns (augment p') w (λ it' _,
      Item.currentInventory it ≤ Item.currentInventory it')).
Proof.
  assert (H1 : (22.3 <= 55.99)%Q) by (vm_compute; congruence).
  assert (H2 : 2 ≤ 3) by lia.
  split; [exact H1 |]. split; [exact H2 |].
  exact (inventory_monotone
           (RawProduct.mk 2 (lit "Mens Casual Premium Slim Fit T-Shirts") 22.3)
           (RawProduct.mk 3 (lit "Mens Cotton Jacket") 55.99)
           (initial_world sample_draws) (initial_world sample_draws) H1 H2).
Defined.

(** ** More on training *)

(** X5.  The two tensors the component makes for a training (features and
    labels) are disposed of only when the fit succeeds.  In a well-formed
    engine, after a training whose fit succeeds the component's own live
    tensors are exactly those it had before; after one whose fit fails they
    are those it had before and, under two fresh ids, the training features
    and the training labels, which nothing disposes of.  In both cases the
    handler returns and the engine stays well formed.  (The model's own
    variables are the library's and are not counted.) *)
Theorem training_tensors (rev : Revision) (outcome : Completion Tf.Network)
  (w : World) :
  Tf.engine_wf (tf w) →
  let r := handleTrainModel rev outcome w in
  let t := Tf.nextTensorId (tf w) in
  fst r = Normal tt ∧
  Tf.engine_wf (tf (snd r)) ∧
  match outcome with
  | Normal _ => Tf.registry (tf (snd r)) = Tf.registry (tf w)
  | Throw _ =>
      Tf.registry (tf w) !! t = None ∧
      Tf.registry (tf w) !! S t = None ∧
      Tf.registry (tf (snd r)) =
        <[S t := trainingLabels_data rev]>
          (<[t := trainingFeatures_data rev]> (Tf.registry (tf w)))
  end.
Proof.
  intros Hwf r t. subst r t.
  pose proof (handleTrainModel_spec rev outcome w) as Hspec.
  pose proof (buildAndTrainModel_engine rev outcome w) as Hbuild.
  cbv zeta in Hspec, Hbuild.
  destruct Hspec as (Hres & Htf & _).
  destruct Hbuild as (_ & Hwf' & _ & Hcase).
  rewrite Htf. split; [exact Hres |]. split; [exact (Hwf' Hwf) |].
  specialize (Hcase Hwf).
  destruct outcome as [net | err]; [exact Hcase |].
  split; [apply Hwf; lia |]. split; [apply Hwf; lia |].
  rewrite buildAndTrainModel_run. reflexivity.
Qed.

Lemma training_tensors_witness :
  let w := mounted_world AppJs in
  let r := handleTrainModel AppJs (Throw "out of memory") w in
  let t := Tf.nextTensorId (tf w) in
  Tf.engine_wf (tf w) ∧
  fst r = Normal tt ∧
  Tf.engine_wf (tf (snd r)) ∧
  Tf.registry (tf w) !! t = None ∧
  Tf.registry (tf w) !! S t = None ∧
  Tf.registry (tf (snd r)) =
    <[S t := trainingLabels_data AppJs]>
      (<[t := trainingFeatures_data AppJs]> (Tf.registry (tf w))).
Proof.
  assert (H : Tf.engine_wf (tf (mounted_world AppJs))).
  { intros i _. apply lookup_empty. }
  split; [exact H |].
  exact (training_tensors AppJs (Throw "out of memory")
           (mounted_world AppJs) H).
Defined.

(** X6.  The training handler never throws; when the fit succeeds it stores
    the fitted model, turns the ready flag on and tells the user so, leaves
    records and count alone, and on the page rendered next the train button
    is disabled and the predict button is not. *)
Theorem training_success (rev : Revision) (outcome : Completion Tf.Network)
  (net : Tf.Network) (w : World) :
  fst (handleTrainModel rev outcome w) = Normal tt ∧
  let w' := snd (handleTrainModel rev (Normal net) w) in
  tfModel (ui w') = Some (model_of net) ∧
  isModelReady (ui w') = true ∧
  items (ui w') = items (ui w) ∧
  totalReorder (ui w') = totalReorder (ui w) ∧
  loading (ui w') = loading (ui w) ∧
  console w' = console w ∧
  match rev with
  | AppJs =>
      message (ui w') =
        Some {| text := "Model trained successfully! Ready to predict.";
                type := success |} ∧
      alerts w' = alerts w
  | InventoryDashboardJsx =>
      alerts w' = alerts w ++ ["Model trained successfully! Ready to predict."]
  end ∧
  clickable (render rev (ui w')) TrainButton = false ∧
  clickable (render rev (ui w')) PredictButton = negb (loading (ui w)).
Proof.
  split.
  - pose proof (handleTrainModel_spec rev outcome w) as Hspec.
    cbv zeta in Hspec. apply Hspec.
  - intros w'. subst w'.
    remember (handleTrainModel rev (Normal net) w) as r eqn:Hr.
    unfold handleTrainModel, try_catch, bind at 1 2 in Hr.
    unfold setModelReady at 1, showMessage_AppJs, modify in Hr.
    destruct rev; simpl in Hr; unfold bind at 1 in Hr;
      rewrite buildAndTrainModel_run in Hr; cbv zeta in Hr;
      simpl in Hr; subst r; unfold render; simpl;
      destruct (loading (ui w)); simpl; repeat split.
Qed.

(** ** More on the prediction pass *)

(** The loop stops at the first record whose forward pass fails, with the
    error of that pass, having asked for a forward pass on the records before
    it and on it, and on none after it. *)
Lemma predictItems_first_failure (model : Tf.LayersModel) (bad : Item.t)
  (rest : list Item.t) (err : string) (good : list Item.t) :
  Tf.forward model [row (Item.mlFeatures bad)] = Throw err →
  forallb (forward_succeeds model) good = true →
  ∀ (n : nat) (w : World),
    fst (predictItems model (good ++ bad :: rest) n w) = Throw err ∧
    Tf.calls (tf (snd (predictItems model (good ++ bad :: rest) n w))) =
      Tf.calls (tf w) ++ map predict_call (good ++ [bad]).
Proof.
  intros Hbad. induction good as [| it good IH]; intros Hgood n w.
  - cbn [app]. rewrite predictItems_cons, predictItem_run, Hbad.
    split; reflexivity.
  - cbn [forallb] in Hgood. apply andb_true_iff in Hgood as [Hit Hgood].
    cbn [app]. rewrite predictItems_cons, predictItem_run.
    unfold forward_succeeds in Hit.
    destruct (Tf.forward model [row (Item.mlFeatures it)])
      as [output |]; [| discriminate Hit].
    set (n1 := if decide (suggestion_for model it = REORDER)
               then S n else n).
    set (w1 := set_tf _ w).
    destruct (IH Hgood n1 w1) as [Hres Hcalls]. cbn [fst snd].
    destruct (predictItems model (good ++ bad :: rest) n1 w1)
      as [[others | err'] w2]; cbn [fst snd] in *; [discriminate Hres |].
    split; [exact Hres |].
    rewrite Hcalls. subst w1. simpl. rewrite <- app_assoc. reflexivity.
Qed.

(** X7.  A prediction pass is all or nothing.  When the forward pass fails
    on some record after succeeding on those before it, the handler throws
    the error of that pass; records, count, banner, flag and model are what
    they were; a forward pass was asked for on the records up to that one and
    on none after it; and in a well-formed engine exactly one tensor more is
    alive than before. *)
Theorem prediction_failure_atomic (rev : Revision) (model : Tf.LayersModel)
  (w : World) (good : list Item.t) (bad : Item.t) (rest : list Item.t)
  (err : string) :
  tfModel (ui w) = Some model →
  items (ui w) = good ++ bad :: rest →
  forallb (forward_succeeds model) good = true →
  Tf.forward model [row (Item.mlFeatures bad)] = Throw err →
  let r := handlePredict rev w in
  fst r = Throw err ∧
  ui (snd r) = ui w ∧
  alerts (snd r) = alerts w ∧
  Tf.calls (tf (snd r)) = Tf.calls (tf w) ++ map predict_call (good ++ [bad]) ∧
  (Tf.engine_wf (tf w) →
   Tf.numTensors (tf (snd r)) = S (Tf.numTensors (tf w))).
Proof.
  intros Hsome Hitems Hgood Hbad r. subst r.
  pose proof (handlePredict_spec rev model w Hsome) as Hspec.
  pose proof (predictItems_spec model (items (ui w)) 0%nat w) as Hloop.
  pose proof (predictItems_first_failure model bad rest err good Hbad Hgood
                0%nat w) as [Hres Hcalls].
  rewrite <- Hitems in Hres, Hcalls.
  cbv zeta in Hspec, Hloop.
  assert (Hfails : forallb (forward_succeeds model) (items (ui w)) = false).
  { rewrite Hitems, forallb_app. cbn [forallb].
    unfold forward_succeeds at 2. rewrite Hbad.
    rewrite andb_false_l. apply andb_false_r. }
  rewrite Hfails in Hspec, Hloop.
  destruct Hspec as (Htf & Hal & _ & _ & _ & _ & _ & _ & Hui).
  destruct Hloop as (_ & _ & _ & _ & Hsize).
  rewrite (handlePredict_trained rev model w Hsome) in *.
  destruct (predictItems model (items (ui w)) 0%nat w)
    as [[mapped | err'] w1]; cbn [fst snd] in *; [discriminate Hres |].
  injection Hres as ->. repeat split; assumption.
Qed.

Lemma prediction_failure_atomic_witness :
  let w := trained_world AppJs picky_network in
  let r := handlePredict AppJs w in
  tfModel (ui w) = Some (model_of picky_network) ∧
  items (ui w) = [sample_backpack_record] ++ sample_shirt_record :: [] ∧
  forallb (forward_succeeds (model_of picky_network))
    [sample_backpack_record] = true ∧
  Tf.forward (model_of picky_network)
    [row (Item.mlFeatures sample_shirt_record)]
    = Throw "the backend was lost" ∧
  fst r = Throw "the backend was lost" ∧
  ui (snd r) = ui w ∧
  alerts (snd r) = alerts w ∧
  Tf.calls (tf (snd r)) =
    Tf.calls (tf w) ++
      map predict_call ([sample_backpack_record] ++ [sample_shirt_record]) ∧
  (Tf.engine_wf (tf w) →
   Tf.numTensors (tf (snd r)) = S (Tf.numTensors (tf w))).
Proof.
  assert (H1 : tfModel (ui (trained_world AppJs picky_network)) =
               Some (model_of picky_network)) by reflexivity.
  assert (H2 : items (ui (trained_world AppJs picky_network)) =
               [sample_backpack_record] ++ sample_shirt_record :: [])
    by reflexivity.
  assert (H3 : forallb (forward_succeeds (model_of picky_network))
                 [sample_backpack_record] = true)
    by (vm_compute; reflexivity).
  assert (H4 : Tf.forward (model_of picky_network)
                 [row (Item.mlFeatures sample_shirt_record)]
               = Throw "the backend was lost")
    by (vm_compute; reflexivity).
  split; [exact H1 |]. split; [exact H2 |]. split; [exact H3 |].
  split; [exact H4 |].
  exact (prediction_failure_atomic AppJs (model_of picky_network)
           (trained_world AppJs picky_network)
           [sample_backpack_record] sample_shirt_record [] _ H1 H2 H3 H4).
Defined.

(** The component after a pass in which every forward pass succeeds. *)
Lemma handlePredict_success_ui (rev : Revision) (model : Tf.LayersModel)
  (w : World) :
  tfModel (ui w) = Some model →
  forallb (forward_succeeds model) (items (ui w)) = true →
  ui (snd (handlePredict rev w)) =
    {| items := map (predicted model) (items (ui w));
       loading := loading (ui w);
       isModelReady := isModelReady (ui w);
       tfModel := tfModel (ui w);
       totalReorder := flagged (map (predicted model) (items (ui w)));
       message :=
         match rev with
         | AppJs =>
             Some {| text :=
                       "Prediction complete. " +:+
                         pretty (flagged (map (predicted model)
                                            (items (ui w))))
                         +:+ " items flagged for reorder.";
                     type := success |}
         | InventoryDashboardJsx => message (ui w)
         end |}.
Proof.
  intros Hsome Hall.
  rewrite (handlePredict_trained rev model w Hsome).
  pose proof (predictItems_spec model (items (ui w)) 0%nat w) as Hloop.
  cbv zeta in Hloop. rewrite Hall in Hloop.
  destruct Hloop as ((Hui & _) & _ & _ & Hres & _).
  destruct (predictItems model (items (ui w)) 0%nat w)
    as [[mapped | err] w1]; cbn [fst snd] in *; [| discriminate Hres].
  injection Hres as ->.
  unfold bind, setItems, setTotalReorder, showMessage_AppJs, showMessage,
    setMessage, modify, ret.
  destruct rev; simpl; rewrite Hui; reflexivity.
Qed.

Lemma predicted_again (model : Tf.LayersModel) (items : list Item.t) :
  map (predicted model) (map (predicted model) items)
    = map (predicted model) items ∧
  forallb (forward_succeeds model) (map (predicted model) items)
    = forallb (forward_succeeds model) items.
Proof.
  induction items as [| it rest [IHmap IHall]]; simpl.
  - split; reflexivity.
  - rewrite IHmap, IHall. split; reflexivity.
Qed.

(** X8.  Predicting again changes nothing: after a pass in which every
    forward pass succeeds, a second pass with the same model returns too and
    leaves the component (records, count, banner, flags, model) exactly as
    the first pass left it; the earlier decisions play no part in the new
    ones. *)
Theorem prediction_idempotent (rev : Revision) (model : Tf.LayersModel)
  (w : World) :
  tfModel (ui w) = Some model →
  forallb (forward_succeeds model) (items (ui w)) = true →
  let w1 := snd (handlePredict rev w) in
  fst (handlePredict rev w1) = Normal tt ∧
  ui (snd (handlePredict rev w1)) = ui w1.
Proof.
  intros Hsome Hall w1. subst w1.
  pose proof (handlePredict_success_ui rev model w Hsome Hall) as Hui1.
  destruct (predicted_again model (items (ui w))) as [Hmap Hforall].
  assert (Hsome1 : tfModel (ui (snd (handlePredict rev w))) = Some model)
    by (rewrite Hui1; exact Hsome).
  assert (Hall1 : forallb (forward_succeeds model)
                    (items (ui (snd (handlePredict rev w)))) = true)
    by (rewrite Hui1; simpl; rewrite Hforall; exact Hall).
  split.
  - pose proof (handlePredict_spec rev model _ Hsome1) as Hspec.
    cbv zeta in Hspec. rewrite Hall1 in Hspec. apply Hspec.
  - rewrite (handlePredict_success_ui rev model _ Hsome1 Hall1).
    rewrite Hui1. simpl. rewrite Hmap. destruct rev; reflexivity.
Qed.

Lemma prediction_idempotent_witness :
  let w := trained_world AppJs sample_network in
  let w1 := snd (handlePredict AppJs w) in
  tfModel (ui w) = Some (model_of sample_network) ∧
  forallb (forward_succeeds (model_of sample_network)) (items (ui w)) = true ∧
  fst (handlePredict AppJs w1) = Normal tt ∧
  ui (snd (handlePredict AppJs w1)) = ui w1.
Proof.
  assert (H1 : tfModel (ui (trained_world AppJs sample_network)) =
               Some (model_of sample_network)) by reflexivity.
  assert (H2 : forallb (forward_succeeds (model_of sample_network))
                 (items (ui (trained_world AppJs sample_network))) = true)
    by (vm_compute; reflexivity).
  split; [exact H1 |]. split; [exact H2 |].
  exact (prediction_idempotent AppJs (model_of sample_network)
           (trained_world AppJs sample_network) H1 H2).
Defined.

(** ** More invariants of the component *)

Lemma none_pending_predicted (model : Tf.LayersModel) (items : list Item.t) :
  none_pending (map (predicted model) items).
Proof.
  unfold none_pending.
  induction items as [| it rest IH]; simpl; constructor.
  - unfold predicted, suggestion_for. simpl.
    destruct (ge (probability model it) 0.5); [left | right]; reflexivity.
  - exact IH.
Qed.

Lemma initial_session_invariant (draws : nat → Q) :
  session_invariant (initial_world draws).
Proof.
  unfold session_invariant, all_pending. simpl.
  split; [reflexivity |]. split; [left; constructor |].
  intros _. split; reflexivity.
Qed.

Lemma step_session_invariant (rev : Revision) (e : Event) (w : World) :
  world_invariant w → session_invariant w → enabled e w = true →
  session_invariant (snd (handle rev e w)).
Proof.
  intros (_ & Hready & _ & _) (Hcount & Hmix & Hloading) Hen.
  unfold session_invariant, ready_iff_model in *.
  destruct e as [reply | outcome | |]; simpl in Hen; cbn [handle].
  - (* mount: the component held no record *)
    destruct (Hloading Hen) as [Hempty Hnone].
    pose proof (loadProducts_spec rev reply w) as Hspec. cbv zeta in Hspec.
    destruct Hspec as (_ & _ & Hload & _ & _ & Htotal & Hitems).
    rewrite Htotal, Hload, Hcount, Hempty.
    assert (Hpending : all_pending
                         (items (ui (snd (loadProducts rev reply w))))).
    { destruct reply as [rawProducts | err].
      - destruct Hitems as [w1 Hrun].
        destruct (createAugmentedProducts_run rawProducts w)
          as (w1' & Hrun' & _).
        rewrite Hrun in Hrun'. injection Hrun' as -> _.
        apply synthesize_all_pending.
      - rewrite Hitems, Hempty. constructor. }
    split; [| split; [left; exact Hpending | discriminate]].
    rewrite (flagged_all_pending _ Hpending). reflexivity.
  - (* train *)
    apply andb_true_iff in Hen as [Hloaded _]. apply negb_true_iff in Hloaded.
    pose proof (handleTrainModel_spec rev outcome w) as Hspec.
    cbv zeta in Hspec.
    destruct Hspec as (_ & _ & Hitems & Hload & Htotal & _).
    rewrite Hitems, Hload, Htotal, Hloaded.
    split; [exact Hcount |]. split; [exact Hmix | discriminate].
  - (* predict *)
    apply andb_true_iff in Hen as [Hloaded Hyes].
    apply negb_true_iff in Hloaded.
    destruct (proj1 Hready Hyes) as [model Hmodel].
    pose proof (handlePredict_spec rev model w Hmodel) as Hspec.
    cbv zeta in Hspec.
    destruct Hspec as (_ & _ & _ & _ & Hload & _ & _ & Hcase).
    rewrite Hload, Hloaded.
    destruct (forallb (forward_succeeds model) (items (ui w))).
    + destruct Hcase as (_ & -> & ->).
      split; [reflexivity |].
      split; [right; apply none_pending_predicted | discriminate].
    + destruct Hcase as (_ & ->).
      split; [exact Hcount |]. split; [exact Hmix | discriminate].
  - (* the banner times out *)
    simpl. repeat split; tauto.
Qed.

Lemma reachable_session_invariant (rev : Revision) (draws : nat → Q)
  (w : World) :
  reachable rev draws w → session_invariant w.
Proof.
  intros Hreach. induction Hreach as [| w e Hreach IH Hen].
  - apply initial_session_invariant.
  - apply step_session_invariant; [| exact IH | exact Hen].
    exact (reachable_invariant rev draws w Hreach).
Qed.

Lemma red_rows_flagged (items : list Item.t) :
  red_rows (map table_row items) = flagged items.
Proof.
  unfold red_rows. induction items as [| it rest IH].
  - reflexivity.
  - rewrite flagged_cons. cbn [map]. rewrite filter_cons.
    unfold table_row at 1. simpl.
    destruct (decide (Item.reorderPrediction it = REORDER)) as [Heq | Hne].
    + rewrite decide_True by reflexivity. simpl. rewrite IH. reflexivity.
    + rewrite decide_False by discriminate. exact IH.
Qed.

Lemma flagged_le_length (items : list Item.t) :
  (flagged items ≤ length items)%nat.
Proof.
  induction items as [| it rest IH]; [reflexivity |].
  rewrite flagged_cons. simpl.
  destruct (decide (Item.reorderPrediction it = REORDER)); lia.
Qed.

(** X9.  In every state the component can reach, once the catalog is loaded
    the page is shown with its three cards, the first card shows the number
    of table rows, and the card "Items flagged REORDER" shows exactly the
    number of rows drawn in the reorder colour, which is the number of
    records whose decision is [REORDER]. *)
Theorem reorder_card_counts_red_rows (rev : Revision) (draws : nat → Q)
  (w : World) :
  reachable rev draws w →
  loading (ui w) = false →
  ∃ alert toolbar products flaggedCard statusCard rows,
    render rev (ui w) =
      View.Page alert toolbar [products; flaggedCard; statusCard] rows ∧
    View.cardValue products = View.Count (length rows) ∧
    View.cardLabel flaggedCard = "Items flagged REORDER" ∧
    View.cardValue flaggedCard = View.Count (red_rows rows) ∧
    red_rows rows = flagged (items (ui w)) ∧
    (red_rows rows ≤ length rows)%nat.
Proof.
  intros Hreach Hloaded.
  destruct (reachable_session_invariant rev draws w Hreach) as (Hcount & _).
  unfold render. rewrite Hloaded.
  eexists _, _, _, _, _, _. split; [reflexivity |]. simpl.
  rewrite red_rows_flagged, length_map, Hcount.
  repeat split. apply flagged_le_length.
Qed.

Lemma reorder_card_counts_red_rows_witness :
  let w := snd (handlePredict AppJs (trained_world AppJs sample_network)) in
  reachable AppJs sample_draws w ∧
  loading (ui w) = false ∧
  ∃ alert toolbar products flaggedCard statusCard rows,
    render AppJs (ui w) =
      View.Page alert toolbar [products; flaggedCard; statusCard] rows ∧
    View.cardValue products = View.Count (length rows) ∧
    View.cardLabel flaggedCard = "Items flagged REORDER" ∧
    View.cardValue flaggedCard = View.Count (red_rows rows) ∧
    red_rows rows = flagged (items (ui w)) ∧
    (red_rows rows ≤ length rows)%nat.
Proof.
  assert (H1 : reachable AppJs sample_draws
                 (snd (handlePredict AppJs
                         (trained_world AppJs sample_network)))).
  { apply (reachable_step AppJs sample_draws _ ClickPredict).
    - apply trained_world_reachable.
    - reflexivity. }
  assert (H2 : loading (ui (snd (handlePredict AppJs
                 (trained_world AppJs sample_network)))) = false)
    by (vm_compute; reflexivity).
  split; [exact H1 |]. split; [exact H2 |].
  exact (reorder_card_counts_red_rows AppJs sample_draws _ H1 H2).
Defined.

(** X10.  In every state the component can reach the records are decided
    all together: either every record is still pending or none is, each
    being [REORDER] or [No Reorder]. *)
Theorem predictions_all_or_nothing (rev : Revision) (draws : nat → Q)
  (w : World) :
  reachable rev draws w →
  all_pending (items (ui w)) ∨ none_pending (items (ui w)).
Proof.
  intros Hreach.
  destruct (reachable_session_invariant rev draws w Hreach) as (_ & Hmix & _).
  exact Hmix.
Qed.

Lemma predictions_all_or_nothing_witness :
  let w := snd (handlePredict InventoryDashboardJsx
                  (trained_world InventoryDashboardJsx picky_network)) in
  reachable InventoryDashboardJsx sample_draws w ∧
  (all_pending (items (ui w)) ∨ none_pending (items (ui w))).
Proof.
  assert (H1 : reachable InventoryDashboardJsx sample_draws
                 (snd (handlePredict InventoryDashboardJsx
                         (trained_world InventoryDashboardJsx
                            picky_network)))).
  { apply (reachable_step InventoryDashboardJsx sample_draws _ ClickPredict).
    - apply trained_world_reachable.
    - reflexivity. }
  split; [exact H1 |].
  exact (predictions_all_or_nothing InventoryDashboardJsx sample_draws _ H1).
Defined.

(** X11.  In every state the component can reach, the buttons follow the
    stored model: the predict button can be clicked exactly when the catalog
    is loaded and a model is stored, the train button exactly when the
    catalog is loaded and no model is stored; so a click on predict never
    meets a component without a model, and the events the transition system
    allows are the clicks the rendered page allows. *)
Theorem buttons_follow_model (rev : Revision) (draws : nat → Q) (w : World) :
  reachable rev draws w →
  (clickable (render rev (ui w)) PredictButton = true ↔
     loading (ui w) = false ∧ is_Some (tfModel (ui w))) ∧
  (clickable (render rev (ui w)) TrainButton = true ↔
     loading (ui w) = false ∧ tfModel (ui w) = None) ∧
  (∀ outcome,
     enabled (ClickTrain outcome) w
       = clickable (render rev (ui w)) TrainButton) ∧
  enabled ClickPredict w = clickable (render rev (ui w)) PredictButton.
Proof.
  intros Hreach.
  destruct (reachable_invariant rev draws w Hreach) as (_ & Hready & _ & _).
  unfold ready_iff_model in Hready. unfold render, enabled.
  destruct (loading (ui w)); simpl.
  - repeat split; try discriminate; intros [Hfalse _]; discriminate Hfalse.
  - rewrite negb_involutive.
    destruct (isModelReady (ui w)); simpl.
    + assert (Hsome : is_Some (tfModel (ui w))) by (apply Hready; reflexivity).
      repeat split; try discriminate; try assumption.
      intros [_ Hnone]. rewrite Hnone in Hsome.
      destruct Hsome as [model Hmodel]. discriminate Hmodel.
    + assert (Hnone : tfModel (ui w) = None).
      { destruct (tfModel (ui w)) as [model |] eqn:Hmodel; [| reflexivity].
        assert (Hyes : false = true) by (apply Hready; eauto).
        discriminate Hyes. }
      repeat split; try discriminate; try assumption.
      intros [_ Hsome]. rewrite Hnone in Hsome.
      destruct Hsome as [model Hmodel]. discriminate Hmodel.
Qed.

Lemma buttons_follow_model_witness :
  let w := trained_world AppJs sample_network in
  reachable AppJs sample_draws w ∧
  (clickable (render AppJs (ui w)) PredictButton = true ↔
     loading (ui w) = false ∧ is_Some (tfModel (ui w))) ∧
  (clickable (render AppJs (ui w)) TrainButton = true ↔
     loading (ui w) = false ∧ tfModel (ui w) = None) ∧
  (∀ outcome,
     enabled (ClickTrain outcome) w
       = clickable (render AppJs (ui w)) TrainButton) ∧
  enabled ClickPredict w = clickable (render AppJs (ui w)) PredictButton.
Proof.
  split; [exact (trained_world_reachable AppJs sample_network) |].
  exact (buttons_follow_model AppJs sample_draws
           (trained_world AppJs sample_network)
           (trained_world_reachable AppJs sample_network)).
Defined.

(** The two halves, run one after the other, are the handler. *)
Lemma handleTrainModel_halves (rev : Revision)
  (outcome : Completion Tf.Network) (w : World) :
  handleTrainModel rev outcome w =
    bind (handleTrainModel_begin rev) (handleTrainModel_resume rev outcome) w.
Proof.
  unfold handleTrainModel, handleTrainModel_begin, handleTrainModel_resume,
    buildAndTrainModel, try_catch, tf_, zoom, bind, ret, throw.
  unfold Tf.tensor2d, Tf.fit, Tf.read, Tf.record_call, Tf.dispose,
    setModelReady, showMessage_AppJs, showMessage, setMessage, modify,
    bind, ret, throw.
  destruct rev; simpl;
    rewrite lookup_insert_ne by lia; rewrite lookup_insert_eq; simpl;
    rewrite lookup_insert_eq; simpl;
    destruct outcome as [net | err]; reflexivity.
Qed.

(** The first half leaves the flag off, and with it the train button on. *)
Lemma handleTrainModel_begin_spec (rev : Revision) (w : World) :
  let r := handleTrainModel_begin rev w in
  fst r = Normal (Tf.nextTensorId (tf w), S (Tf.nextTensorId (tf w))) ∧
  isModelReady (ui (snd r)) = false ∧
  tfModel (ui (snd r)) = tfModel (ui w) ∧
  loading (ui (snd r)) = loading (ui w) ∧
  items (ui (snd r)) = items (ui w).
Proof.
  intros r. subst r.
  remember (handleTrainModel_begin rev w) as r eqn:Hr.
  unfold handleTrainModel_begin, tf_, zoom, bind, ret in Hr.
  unfold Tf.tensor2d, Tf.read, Tf.record_call, setModelReady,
    showMessage_AppJs, showMessage, setMessage, modify, bind, ret in Hr.
  destruct rev; simpl in Hr;
    rewrite lookup_insert_ne in Hr by lia; rewrite lookup_insert_eq in Hr;
    simpl in Hr; rewrite lookup_insert_eq in Hr; simpl in Hr;
    subst r; repeat split.
Qed.

(** The second half: a fit that succeeded stores its model and turns the
    flag on; a fit that failed touches neither. *)
Lemma handleTrainModel_resume_spec (rev : Revision)
  (outcome : Completion Tf.Network) (suspended : nat * nat) (w : World) :
  let r := handleTrainModel_resume rev outcome suspended w in
  fst r = Normal tt ∧
  loading (ui (snd r)) = loading (ui w) ∧
  items (ui (snd r)) = items (ui w) ∧
  match outcome with
  | Normal net =>
      tfModel (ui (snd r)) = Some (model_of net) ∧
      isModelReady (ui (snd r)) = true
  | Throw _ =>
      tfModel (ui (snd r)) = tfModel (ui w) ∧
      isModelReady (ui (snd r)) = isModelReady (ui w)
  end.
Proof.
  intros r. subst r.
  unfold handleTrainModel_resume, try_catch, tf_, zoom, bind, ret, throw.
  unfold Tf.dispose, setTfModel, setModelReady, notify, showMessage,
    setMessage, alert, console_error, modify, bind, ret.
  destruct outcome as [net | err]; destruct rev; simpl; repeat split.
Qed.

(** X12.  Trainings can overlap, and the one whose fit settles last wins.
    On a loaded component a click on train leaves the train button
    clickable while its fit is under way; a second click then starts a
    second fit; when the first fit succeeds its model is stored, and when
    the second succeeds afterwards its model takes the place of the first;
    had the second failed instead, the first model and the ready flag would
    have stayed. *)
Theorem overlapping_trainings (rev : Revision) (net1 net2 : Tf.Network)
  (err : string) (w : World) :
  loading (ui w) = false →
  let first := handleTrainModel_begin rev w in
  let second := handleTrainModel_begin rev (snd first) in
  clickable (render rev (ui (snd first))) TrainButton = true ∧
  ∃ s1 s2,
    fst first = Normal s1 ∧ fst second = Normal s2 ∧
    let w1 := snd (handleTrainModel_resume rev (Normal net1) s1 (snd second)) in
    let w2 := snd (handleTrainModel_resume rev (Normal net2) s2 w1) in
    let w2' := snd (handleTrainModel_resume rev (Throw err) s2 w1) in
    tfModel (ui w1) = Some (model_of net1) ∧
    isModelReady (ui w1) = true ∧
    tfModel (ui w2) = Some (model_of net2) ∧
    isModelReady (ui w2) = true ∧
    tfModel (ui w2') = Some (model_of net1) ∧
    isModelReady (ui w2') = true.
Proof.
  intros Hloaded first second. subst first second.
  pose proof (handleTrainModel_begin_spec rev w) as Hb1.
  cbv zeta in Hb1. destruct Hb1 as (Hs1 & Hflag1 & _ & Hload1 & _).
  pose proof (handleTrainModel_begin_spec rev
                (snd (handleTrainModel_begin rev w))) as Hb2.
  cbv zeta in Hb2. destruct Hb2 as (Hs2 & _).
  split.
  - unfold render. rewrite Hload1, Hloaded, Hflag1. reflexivity.
  - eexists _, _. split; [exact Hs1 |]. split; [exact Hs2 |].
    cbv zeta.
    match goal with
    | |- context [handleTrainModel_resume rev (Normal net1) ?s ?w0] =>
        pose proof (handleTrainModel_resume_spec rev (Normal net1) s w0)
          as Hr1; cbv zeta in Hr1;
        destruct Hr1 as (_ & _ & _ & Hm1 & Hf1)
    end.
    match goal with
    | |- context [handleTrainModel_resume rev (Normal net2) ?s ?w0] =>
        pose proof (handleTrainModel_resume_spec rev (Normal net2) s w0)
          as Hr2; cbv zeta in Hr2;
        destruct Hr2 as (_ & _ & _ & Hm2 & Hf2)
    end.
    match goal with
    | |- context [handleTrainModel_resume rev (Throw err) ?s ?w0] =>
        pose proof (handleTrainModel_resume_spec rev (Throw err) s w0)
          as Hr3; cbv zeta in Hr3;
        destruct Hr3 as (_ & _ & _ & Hm3 & Hf3)
    end.
    rewrite Hm3, Hf3. repeat split; assumption.
Qed.

Lemma overlapping_trainings_witness :
  let w := mounted_world AppJs in
  let first := handleTrainModel_begin AppJs w in
  let second := handleTrainModel_begin AppJs (snd first) in
  loading (ui w) = false ∧
  clickable (render AppJs (ui (snd first))) TrainButton = true ∧
  ∃ s1 s2,
    fst first = Normal s1 ∧ fst second = Normal s2 ∧
    let w1 := snd (handleTrainModel_resume AppJs (Normal sample_network) s1
                     (snd second)) in
    let w2 := snd (handleTrainModel_resume AppJs (Normal picky_network) s2
                     w1) in
    let w2' := snd (handleTrainModel_resume AppJs (Throw "out of memory") s2
                      w1) in
    tfModel (ui w1) = Some (model_of sample_network) ∧
    isModelReady (ui w1) = true ∧
    tfModel (ui w2) = Some (model_of picky_network) ∧
    isModelReady (ui w2) = true ∧
    tfModel (ui w2') = Some (model_of sample_network) ∧
    isModelReady (ui w2') = true.
Proof.
  assert (H : loading (ui (mounted_world AppJs)) = false) by reflexivity.
  split; [exact H |].
  exact (overlapping_trainings AppJs sample_network picky_network
           "out of memory" (mounted_world AppJs) H).
Defined.

(** ** The mount effect, batch by batch *)

(** The promises settling: each failed batch logs its line, in the order
    of settling; nothing but the console changes. *)
Lemma settle_batches_run (fetch : string → FetchOutcome)
  (settled : list nat) :
  ∀ w, ∃ units w',
    Array_map (settle_batch fetch) settled w = (Normal units, w') ∧
    ui w' = ui w ∧ tf w' = tf w ∧ random w' = random w ∧
    alerts w' = alerts w ∧
    console w' =
      console w ++ map batch_error_line (failed_among fetch settled).
Proof.
  unfold failed_among.
  induction settled as [| i rest IH]; intros w.
  - exists [], w. simpl. rewrite app_nil_r. repeat split.
  - cbn [Array_map]. unfold bind at 1, settle_batch at 1.
    destruct (fetch (batch_url i)) as [reason | status | reason | body]
      eqn:Hfetch;
      [ rewrite filter_cons_True
          by (unfold batch_failed; rewrite Hfetch; reflexivity)
      | rewrite filter_cons_True
          by (unfold batch_failed; rewrite Hfetch; reflexivity)
      | rewrite filter_cons_True
          by (unfold batch_failed; rewrite Hfetch; reflexivity)
      | rewrite filter_cons_False
          by (unfold batch_failed; rewrite Hfetch; discriminate) ];
      unfold bind, console_error, modify, ret; simpl;
      match goal with
      | |- context [Array_map (settle_batch fetch) rest ?w0] =>
          destruct (IH w0)
            as (units & w' & Hrun & Hui & Htf & Hrand & Hal & Hco)
      end;
      eexists _, w'; rewrite Hrun; simpl in *;
      (split; [reflexivity |]);
      rewrite Hco, <- ?app_assoc; repeat split; assumption.
Qed.

(** Every failed batch has its line, once, whatever the order of
    settling. *)
Lemma failed_lines_permutation (fetch : string → FetchOutcome)
  (settled : list nat) :
  settle_order settled →
  map batch_error_line (failed_among fetch settled)
    ≡ₚ map batch_error_line (failed_among fetch (seq 0 totalBatches)).
Proof.
  unfold settle_order, failed_among. intros Horder.
  apply fmap_Permutation. rewrite Horder. reflexivity.
Qed.

Lemma omap_cons_step {A B} (f : A → option B) (a : A) (l : list A) :
  omap f (a :: l) =
    match f a with
    | Some b => b :: omap f l
    | None => omap f l
    end.
Proof. reflexivity. Qed.

Lemma keep_objects_products (entries : list Entry) :
  has_untitled entries = false →
  omap keep_object entries = map ProductObject (products_of entries).
Proof.
  unfold products_of, has_untitled.
  induction entries as [| e rest IH]; intros Hnone.
  - reflexivity.
  - rewrite !omap_cons_step. cbn [existsb] in Hnone.
    destruct e as [| p |]; cbn [keep_object map] in *.
    + apply IH, Hnone.
    + rewrite IH by exact Hnone. reflexivity.
    + discriminate Hnone.
Qed.

Lemma keep_objects_untitled (entries : list Entry) :
  has_untitled entries = true →
  ∃ products rest,
    omap keep_object entries
      = map ProductObject products ++ UntitledObject :: rest.
Proof.
  unfold has_untitled.
  induction entries as [| e rest IH]; intros Hsome.
  - discriminate Hsome.
  - rewrite omap_cons_step. cbn [existsb] in Hsome.
    destruct e as [| p |]; cbn [keep_object] in *.
    + apply IH, Hsome.
    + destruct (IH Hsome) as (products & others & Heq).
      exists (p :: products), others. rewrite Heq. reflexivity.
    + exists [], (omap keep_object rest). reflexivity.
Qed.

(** On product objects only, the callback is that of the synthesizer. *)
Lemma augment_objects_products (products : list RawProduct.t) :
  ∀ w, Array_map augment_object (map ProductObject products) w
         = createAugmentedProducts products w.
Proof.
  unfold createAugmentedProducts.
  induction products as [| p rest IH]; intros w.
  - reflexivity.
  - cbn [map Array_map]. unfold bind at 1 3. cbn [augment_object].
    destruct (augment p w) as [[it | err] w1]; [| reflexivity].
    unfold bind. rewrite IH. reflexivity.
Qed.

(** An object without a title makes the whole map throw; only draws are
    used up. *)
Lemma augment_objects_untitled (rest : list ObjectEntry)
  (products : list RawProduct.t) :
  ∀ w, ∃ w',
    Array_map augment_object
      (map ProductObject products ++ UntitledObject :: rest) w =
      (Throw
         "TypeError: Cannot read properties of undefined (reading 'length')",
       w') ∧
    ui w' = ui w ∧ tf w' = tf w ∧
    alerts w' = alerts w ∧ console w' = console w.
Proof.
  induction products as [| p others IH]; intros w.
  - eexists. cbn [map app Array_map augment_object].
    unfold bind, Math_random, throw. simpl. repeat split.
  - cbn [map app Array_map augment_object]. unfold bind at 1.
    rewrite augment_run. cbv beta iota. unfold bind at 1.
    match goal with
    | |- context [Array_map augment_object _ ?w0] =>
        destruct (IH w0) as (w' & Hrun & Hui & Htf & Hal & Hco)
    end.
    exists w'. rewrite Hrun. repeat split; assumption.
Qed.

(** The component after the mount effect of the one-reply model, on a reply
    that holds products. *)
Lemma loadProducts_products_ui (rev : Revision)
  (rawProducts : list RawProduct.t) (w : World) :
  ui (snd (loadProducts rev (Normal rawProducts) w)) =
    {| items := synthesize_all (random w) rawProducts;
       loading := false;
       isModelReady := isModelReady (ui w);
       tfModel := tfModel (ui w);
       totalReorder := totalReorder (ui w);
       message := message (ui w) |}.
Proof.
  destruct (createAugmentedProducts_run rawProducts w)
    as (w1 & Hrun & Hui & _).
  unfold loadProducts, try_finally, try_catch.
  unfold bind at 1, ret. unfold bind at 1. rewrite Hrun.
  simpl. rewrite Hui. reflexivity.
Qed.

(** X13.  A failed batch costs only its own products.  Whatever the order
    in which the five promises settle, when no reply holds an object without
    a title the mount effect of [App.js] returns with the loader off and
    stores the records of the products of the batches that answered, in
    batch order, values the filter drops being skipped; the console gets the
    lines of the failed batches in the order they settled, one line for each
    failed batch and nothing else; engine, model, flag, count and banner are
    untouched; and the component is the one the one-reply model of the effect
    reaches on the merged products. *)
Theorem failed_batches_are_isolated (fetch : string → FetchOutcome)
  (settled : list nat) (w : World) :
  settle_order settled →
  has_untitled (fetched_entries fetch) = false →
  let r := loadProducts_batches fetch settled w in
  let merged := products_of (fetched_entries fetch) in
  fst r = Normal tt ∧
  items (ui (snd r)) = synthesize_all (random w) merged ∧
  loading (ui (snd r)) = false ∧
  ui (snd r) = ui (snd (loadProducts AppJs (Normal merged) w)) ∧
  tf (snd r) = tf w ∧
  alerts (snd r) = alerts w ∧
  console (snd r) =
    console w ++ map batch_error_line (failed_among fetch settled) ∧
  map batch_error_line (failed_among fetch settled)
    ≡ₚ map batch_error_line (failed_among fetch (seq 0 totalBatches)).
Proof.
  intros Horder Hclean r merged. subst r merged.
  rewrite loadProducts_products_ui.
  remember (loadProducts_batches fetch settled w) as r eqn:Hr.
  unfold loadProducts_batches in Hr. unfold bind at 1 in Hr.
  destruct (settle_batches_run fetch settled w)
    as (units & w0 & Hsettle & Hui0 & Htf0 & Hrand0 & Hal0 & Hco0).
  rewrite Hsettle in Hr. cbv zeta in Hr.
  change (flat (map (batch_result fetch) (seq 0 totalBatches)))
    with (fetched_entries fetch) in Hr.
  rewrite (keep_objects_products _ Hclean) in Hr.
  unfold try_finally, try_catch in Hr. unfold bind at 1 in Hr.
  rewrite augment_objects_products in Hr.
  destruct (createAugmentedProducts_run
              (products_of (fetched_entries fetch)) w0)
    as (w1 & Hrun & Hui1 & Htf1 & Hal1 & Hco1 & _).
  rewrite Hrun in Hr. simpl in Hr. subst r. simpl.
  rewrite Hui1, Hui0, Htf1, Htf0, Hal1, Hal0, Hco1, Hco0, Hrand0.
  repeat split. apply failed_lines_permutation, Horder.
Qed.

Lemma failed_batches_are_isolated_witness :
  let settled := [1; 0; 2; 3; 4]%nat in
  let w := initial_world sample_draws in
  let r := loadProducts_batches sample_fetch settled w in
  let merged := products_of (fetched_entries sample_fetch) in
  settle_order settled ∧
  has_untitled (fetched_entries sample_fetch) = false ∧
  fst r = Normal tt ∧
  items (ui (snd r)) = synthesize_all (random w) merged ∧
  loading (ui (snd r)) = false ∧
  ui (snd r) = ui (snd (loadProducts AppJs (Normal merged) w)) ∧
  tf (snd r) = tf w ∧
  alerts (snd r) = alerts w ∧
  console (snd r) =
    console w ++ map batch_error_line (failed_among sample_fetch settled) ∧
  map batch_error_line (failed_among sample_fetch settled)
    ≡ₚ map batch_error_line (failed_among sample_fetch (seq 0 totalBatches)).
Proof.
  assert (H1 : settle_order [1; 0; 2; 3; 4]%nat) by apply perm_swap.
  assert (H2 : has_untitled (fetched_entries sample_fetch) = false)
    by (vm_compute; reflexivity).
  split; [exact H1 |]. split; [exact H2 |].
  exact (failed_batches_are_isolated sample_fetch [1; 0; 2; 3; 4]%nat
           (initial_world sample_draws) H1 H2).
Defined.

(** The sample network, the fourth promise settling first: the second and
    the fourth batch fail and are logged in the order they settled, the
    [null] of the first is dropped, three products are stored in batch
    order. *)
Example sample_batches_run :
  let r := loadProducts_batches sample_fetch [3; 1; 0; 2; 4]%nat
             (initial_world sample_draws) in
  map Item.id (items (ui (snd r))) = [1; 41; 81] ∧
  map Item.currentInventory (items (ui (snd r))) = [280; 345; 2905] ∧
  console (snd r) = ["Error fetching batch 3:"; "Error fetching batch 1:"].
Proof. vm_compute. repeat split; reflexivity. Qed.

(** X14.  One malformed entry costs the whole catalog.  Whatever the order
    in which the five promises settle, when some reply holds an object
    without a title the mount effect of [App.js] still returns with the
    loader off, but stores no record at all: the records are those held
    before, the failure is logged after the lines of the failed batches, and
    the banner says that the products could not be loaded; engine, model,
    flag and count are untouched. *)
Theorem untitled_entry_fails_the_mount (fetch : string → FetchOutcome)
  (settled : list nat) (w : World) :
  settle_order settled →
  has_untitled (fetched_entries fetch) = true →
  let r := loadProducts_batches fetch settled w in
  fst r = Normal tt ∧
  items (ui (snd r)) = items (ui w) ∧
  loading (ui (snd r)) = false ∧
  message (ui (snd r)) =
    Some {| text := "Failed to load products from API."; type := error |} ∧
  isModelReady (ui (snd r)) = isModelReady (ui w) ∧
  tfModel (ui (snd r)) = tfModel (ui w) ∧
  totalReorder (ui (snd r)) = totalReorder (ui w) ∧
  tf (snd r) = tf w ∧
  console (snd r) =
    console w ++ map batch_error_line (failed_among fetch settled)
      ++ ["Failed loading products:"] ∧
  map batch_error_line (failed_among fetch settled)
    ≡ₚ map batch_error_line (failed_among fetch (seq 0 totalBatches)).
Proof.
  intros Horder Hbad r. subst r.
  remember (loadProducts_batches fetch settled w) as r eqn:Hr.
  unfold loadProducts_batches in Hr. unfold bind at 1 in Hr.
  destruct (settle_batches_run fetch settled w)
    as (units & w0 & Hsettle & Hui0 & Htf0 & Hrand0 & Hal0 & Hco0).
  rewrite Hsettle in Hr. cbv zeta in Hr.
  change (flat (map (batch_result fetch) (seq 0 totalBatches)))
    with (fetched_entries fetch) in Hr.
  destruct (keep_objects_untitled _ Hbad) as (products & rest & Hobjects).
  rewrite Hobjects in Hr.
  unfold try_finally, try_catch in Hr. unfold bind at 1 in Hr.
  destruct (augment_objects_untitled rest products w0)
    as (w1 & Hrun & Hui1 & Htf1 & Hal1 & Hco1).
  rewrite Hrun in Hr. simpl in Hr. subst r. simpl.
  rewrite Hui1, Hui0, Htf1, Htf0, Hco1, Hco0, <- app_assoc.
  repeat split. apply failed_lines_permutation, Horder.
Qed.

Lemma untitled_entry_fails_the_mount_witness :
  let settled := [1; 0; 2; 3; 4]%nat in
  let w := initial_world sample_draws in
  let r := loadProducts_batches sample_fetch_untitled settled w in
  settle_order settled ∧
  has_untitled (fetched_entries sample_fetch_untitled) = true ∧
  fst r = Normal tt ∧
  items (ui (snd r)) = items (ui w) ∧
  loading (ui (snd r)) = false ∧
  message (ui (snd r)) =
    Some {| text := "Failed to load products from API."; type := error |} ∧
  isModelReady (ui (snd r)) = isModelReady (ui w) ∧
  tfModel (ui (snd r)) = tfModel (ui w) ∧
  totalReorder (ui (snd r)) = totalReorder (ui w) ∧
  tf (snd r) = tf w ∧
  console (snd r) =
    console w
      ++ map batch_error_line (failed_among sample_fetch_untitled settled)
      ++ ["Failed loading products:"] ∧
  map batch_error_line (failed_among sample_fetch_untitled settled)
    ≡ₚ map batch_error_line
         (failed_among sample_fetch_untitled (seq 0 totalBatches)).
Proof.
  assert (H1 : settle_order [1; 0; 2; 3; 4]%nat) by apply perm_swap.
  assert (H2 : has_untitled (fetched_entries sample_fetch_untitled) = true)
    by (vm_compute; reflexivity).
  split; [exact H1 |]. split; [exact H2 |].
  exact (untitled_entry_fails_the_mount sample_fetch_untitled
           [1; 0; 2; 3; 4]%nat (initial_world sample_draws) H1 H2).
Defined.

(** ** The session as a whole *)

Lemma same_but_prediction_refl (items : list Item.t) :
  Forall2 same_but_prediction items items.
Proof.
  induction items as [| it rest IH]; constructor.
  - unfold same_but_prediction. repeat split.
  - exact IH.
Qed.

Lemma same_but_prediction_predicted (model : Tf.LayersModel)
  (items : list Item.t) :
  Forall2 same_but_prediction items (map (predicted model) items).
Proof.
  induction items as [| it rest IH]; simpl; constructor.
  - unfold same_but_prediction, predicted. simpl. repeat split.
  - exact IH.
Qed.

(** X15.  Once the catalog is loaded it is fixed: in every state the
    component can reach with the loader off, whatever event it can take, the
    loader stays off and the records afterwards are as many as before, each
    with the id, name, inventory, sales, lead time and feature vector of the
    record in its place; only decisions change. *)
Theorem loaded_catalog_is_fixed (rev : Revision) (draws : nat → Q)
  (w : World) (e : Event) :
  reachable rev draws w →
  enabled e w = true →
  loading (ui w) = false →
  loading (ui (snd (handle rev e w))) = false ∧
  Forall2 same_but_prediction (items (ui w))
    (items (ui (snd (handle rev e w)))).
Proof.
  intros Hreach Hen Hloaded.
  destruct (reachable_invariant rev draws w Hreach) as (_ & Hready & _ & _).
  unfold ready_iff_model in Hready.
  destruct e as [reply | outcome | |]; simpl in Hen; cbn [handle].
  - rewrite Hloaded in Hen. discriminate Hen.
  - pose proof (handleTrainModel_spec rev outcome w) as Hspec.
    cbv zeta in Hspec.
    destruct Hspec as (_ & _ & Hitems & Hload & _).
    rewrite Hitems, Hload. split; [exact Hloaded |].
    apply same_but_prediction_refl.
  - apply andb_true_iff in Hen as [_ Hyes].
    destruct (proj1 Hready Hyes) as [model Hmodel].
    pose proof (handlePredict_spec rev model w Hmodel) as Hspec.
    cbv zeta in Hspec.
    destruct Hspec as (_ & _ & _ & _ & Hload & _ & _ & Hcase).
    rewrite Hload. split; [exact Hloaded |].
    destruct (forallb (forward_succeeds model) (items (ui w))).
    + destruct Hcase as (_ & -> & _). apply same_but_prediction_predicted.
    + destruct Hcase as (_ & ->). apply same_but_prediction_refl.
  - simpl. split; [exact Hloaded |]. apply same_but_prediction_refl.
Qed.

Lemma loaded_catalog_is_fixed_witness :
  let w := trained_world AppJs sample_network in
  reachable AppJs sample_draws w ∧
  enabled ClickPredict w = true ∧
  loading (ui w) = false ∧
  loading (ui (snd (handle AppJs ClickPredict w))) = false ∧
  Forall2 same_but_prediction (items (ui w))
    (items (ui (snd (handle AppJs ClickPredict w)))).
Proof.
  assert (H2 : enabled ClickPredict (trained_world AppJs sample_network)
               = true) by reflexivity.
  assert (H3 : loading (ui (trained_world AppJs sample_network)) = false)
    by reflexivity.
  split; [exact (trained_world_reachable AppJs sample_network) |].
  split; [exact H2 |]. split; [exact H3 |].
  exact (loaded_catalog_is_fixed AppJs sample_draws
           (trained_world AppJs sample_network) ClickPredict
           (trained_world_reachable AppJs sample_network) H2 H3).
Defined.

(** X16.  No tensor the component itself makes (with [tf.tensor2d], or as
    the result of [model.predict]) outlives a handler whose library calls
    succeed: in every state the component can reach, an event it can take
    whose fit or forward passes all succeed leaves the component's own live
    tensors exactly as they were; so do the mount effect and the message
    timer.  (The variables of the model a training builds are the library's
    and are not counted.) *)
Theorem no_leak_when_library_succeeds (rev : Revision) (draws : nat → Q)
  (w : World) (e : Event) :
  reachable rev draws w →
  enabled e w = true →
  library_ok e w = true →
  Tf.registry (tf (snd (handle rev e w))) = Tf.registry (tf w).
Proof.
  intros Hreach Hen Hok.
  destruct (reachable_invariant rev draws w Hreach) as (_ & Hready & Hwf & _).
  unfold ready_iff_model in Hready.
  destruct e as [reply | [net | err] | |]; simpl in Hen, Hok; cbn [handle].
  - pose proof (loadProducts_spec rev reply w) as Hspec. cbv zeta in Hspec.
    destruct Hspec as (_ & -> & _). reflexivity.
  - pose proof (handleTrainModel_spec rev (Normal net) w) as Hspec.
    pose proof (buildAndTrainModel_engine rev (Normal net) w) as Hbuild.
    cbv zeta in Hspec, Hbuild.
    destruct Hspec as (_ & -> & _). destruct Hbuild as (_ & _ & _ & Hreg).
    exact (Hreg Hwf).
  - discriminate Hok.
  - apply andb_true_iff in Hen as [_ Hyes].
    destruct (proj1 Hready Hyes) as [model Hmodel].
    rewrite Hmodel in Hok.
    pose proof (handlePredict_spec rev model w Hmodel) as Hspec.
    pose proof (predictItems_spec model (items (ui w)) 0%nat w) as Hloop.
    cbv zeta in Hspec, Hloop. rewrite Hok in Hloop.
    destruct Hspec as (-> & _). destruct Hloop as (_ & _ & _ & _ & _ & Hreg).
    exact (Hreg Hwf).
  - reflexivity.
Qed.

Lemma no_leak_when_library_succeeds_witness :
  let w := mounted_world InventoryDashboardJsx in
  let e := ClickTrain (Normal sample_network) in
  reachable InventoryDashboardJsx sample_draws w ∧
  enabled e w = true ∧
  library_ok e w = true ∧
  Tf.registry (tf (snd (handle InventoryDashboardJsx e w)))
    = Tf.registry (tf w).
Proof.
  assert (H2 : enabled (ClickTrain (Normal sample_network))
                 (mounted_world InventoryDashboardJsx) = true)
    by reflexivity.
  assert (H3 : library_ok (ClickTrain (Normal sample_network))
                 (mounted_world InventoryDashboardJsx) = true)
    by reflexivity.
  split; [exact (mounted_world_reachable InventoryDashboardJsx) |].
  split; [exact H2 |]. split; [exact H3 |].
  exact (no_leak_when_library_succeeds InventoryDashboardJsx sample_draws
           (mounted_world InventoryDashboardJsx)
           (ClickTrain (Normal sample_network))
           (mounted_world_reachable InventoryDashboardJsx) H2 H3).
Defined.
